(** * Firewood location-allocation: greedy, distance-first, industrial priority

    A shallow embedding of [firewood_allocation.py] and the properties of its
    two-pass greedy allocator.

    Numbers.  The script computes volumes (m³) and distances (km) with
    Python floats.  The first embedding computes with exact rationals
    ([Qc], canonical fractions with Leibniz equality): comparisons,
    subtraction, product and running sum are the rational ones.  The
    properties stated on it are those that do not depend on rounding, inf
    or NaN.  The second embedding, [F64], computes with the binary64
    numbers of the kernel, as the script does; the properties that
    rounding, inf or NaN change are stated on it.

    Dictionaries.  [supply], [ind] and [res] are Python dicts that
    [greedy_allocate] mutates in place; the supply dict is handed to both
    passes.  Dicts live in a heap indexed by references, and
    [greedy_allocate] receives the two references it was called with. *)

From Stdlib Require Import QArith Qcanon Lqa Floats.
From stdpp Require Import base numbers strings gmap list sorting.

Local Open Scope string_scope.
Local Open Scope list_scope.
Local Open Scope Qc_scope.

(** ** Dictionaries and the heap *)

(** A Python dict from municipality name to volume. *)
Abbreviation dict := (gmap string Qc).

(** [m.get(k, dflt)] *)
Definition get (m : dict) (k : string) (dflt : Qc) : Qc :=
  default dflt (m !! k).

(** References to dict objects. *)
Definition ref := nat.

(** The heap holds the dict each reference designates. *)
Definition heap := ref → dict.

(** Replace the dict stored at [r]. *)
Definition heap_set (h : heap) (r : ref) (m : dict) : heap :=
  λ r', if decide (r' = r) then m else h r'.

(** [m[k] = v] on the dict object referenced by [r] *)
Definition setitem (h : heap) (r : ref) (k : string) (v : Qc) : heap :=
  heap_set h r (<[k := v]> (h r)).

(** ** Tables *)

(** A row of the OD matrix after [load_od]. *)
Module OD.
Record row := Row {
  origin_id : string;
  destination_id : string;
  distance_km : Qc;
}.
End OD.

(** A line of the result table, the dict appended by [greedy_allocate]. *)
Module Alloc.
Record record := Record_ {
  origin_id : string;
  destination_id : string;
  allocated_volume : Qc;
  distance_km : Qc;
  demand_type : string;
  weighted_cost : Qc;
}.
End Alloc.

(** ** [greedy_allocate] *)

(** What the loop of [greedy_allocate] carries from one row to the next:
    the heap with the two dicts, the list [allocations] and the running
    [total_weighted_cost]. *)
Record loop_state := LoopState {
  st_heap : heap;
  allocations : list Alloc.record;
  total_weighted_cost : Qc;
}.

(** [cutoff_km is not None and dist > cutoff_km] *)
Definition beyond_cutoff (cutoff_km : option Qc) (dist : Qc) : bool :=
  match cutoff_km with
  | None => false
  | Some c => bool_decide (c < dist)
  end.

(** One iteration of [for _, row in od_df.iterrows()]; each [continue]
    returns the state as it is. *)
Definition loop_body (supply_map demand_map : ref) (demand_type : string)
    (cutoff_km : option Qc) (st : loop_state) (row : OD.row) : loop_state :=
  let o := OD.origin_id row in
  let d := OD.destination_id row in
  let dist := OD.distance_km row in
  if beyond_cutoff cutoff_km dist then st else
  let s_left := get (st_heap st supply_map) o 0 in
  let d_left := get (st_heap st demand_map) d 0 in
  if bool_decide (s_left ≤ 0) || bool_decide (d_left ≤ 0) then st else
  let alloc := if bool_decide (s_left < d_left) then s_left else d_left in
  if bool_decide (alloc ≤ 0) then st else
  let h1 := setitem (st_heap st) supply_map o (s_left - alloc) in
  let h2 := setitem h1 demand_map d (d_left - alloc) in
  let wcost := alloc * dist in
  {| st_heap := h2;
     allocations := allocations st ++
       [ {| Alloc.origin_id := o;
            Alloc.destination_id := d;
            Alloc.allocated_volume := alloc;
            Alloc.distance_km := dist;
            Alloc.demand_type := demand_type;
            Alloc.weighted_cost := wcost |} ];
     total_weighted_cost := total_weighted_cost st + wcost |}.

(** The loop, started from any state. *)
Definition greedy_loop (supply_map demand_map : ref) (demand_type : string)
    (cutoff_km : option Qc) (od_df : list OD.row) (st : loop_state) : loop_state :=
  fold_left (loop_body supply_map demand_map demand_type cutoff_km) od_df st.

(** [greedy_allocate(od_df, supply_map, demand_map, demand_type, cutoff_km)]
    run in heap [h].  The Python function returns
    [(allocations, total_weighted_cost)] and leaves its effect in the two
    dicts; the result here carries the heap as well. *)
Definition greedy_allocate (od_df : list OD.row) (supply_map demand_map : ref)
    (demand_type : string) (cutoff_km : option Qc) (h : heap) : loop_state :=
  greedy_loop supply_map demand_map demand_type cutoff_km od_df
    {| st_heap := h; allocations := []; total_weighted_cost := 0 |}.

(** ** The two passes of [main] *)

(** The three dicts [main] builds with [to_dict()]: distinct objects. *)
Definition supply : ref := 0%nat.
Definition ind : ref := 1%nat.
Definition res : ref := 2%nat.

(** The heap right after the three lookup dicts were built. *)
Definition main_heap (supply0 ind0 res0 : dict) : heap :=
  heap_set (heap_set (heap_set (λ _, ∅) supply supply0) ind ind0) res res0.

(** The sum of a column of numbers. *)
Definition sum (l : list Qc) : Qc := fold_left Qcplus l 0.

(** What [main] holds after the two passes and the concatenation. *)
Record passes := Passes {
  pass_ind : loop_state;   (* alloc_ind, cost_ind, and the heap after pass 1 *)
  pass_res : loop_state;   (* alloc_res, cost_res, and the heap after pass 2 *)
}.

(** Lines 181-191 of [main]: the industrial pass, then the residential
    pass on the heap the first one left. *)
Definition run_passes (od_df : list OD.row) (cutoff_km : option Qc) (h : heap) : passes :=
  let p1 := greedy_allocate od_df supply ind "industrial" cutoff_km h in
  let p2 := greedy_allocate od_df supply res "residential" cutoff_km (st_heap p1) in
  {| pass_ind := p1; pass_res := p2 |}.

(** [alloc_df = pd.DataFrame(alloc_ind + alloc_res)] *)
Definition alloc_df (p : passes) : list Alloc.record :=
  allocations (pass_ind p) ++ allocations (pass_res p).

(** [alloc_df['allocated_volume'].sum() if not alloc_df.empty else 0.0] *)
Definition total_alloc (p : passes) : Qc :=
  match alloc_df p with
  | [] => 0
  | _ => sum (Alloc.allocated_volume <$> alloc_df p)
  end.

Definition cost_ind (p : passes) : Qc := total_weighted_cost (pass_ind p).
Definition cost_res (p : passes) : Qc := total_weighted_cost (pass_res p).

(** ** Loading the two tables *)

(** A table as [pd.read_csv] hands it over: the header and the rows of
    cell text, cell [i] of a row under header [i]. *)
Record DataFrame := Frame {
  columns : list string;
  rows : list (list string);
}.

(** The error the loaders raise. *)
Inductive error :=
  | MissingColumns (table : string) (missing : gset string)
      (* ValueError(f"Missing required columns in {table}: {missing}") *)
  | NotAFloat (text : string).
      (* ValueError of [.astype(float)] on a distance cell *)

(** Results of code that may raise, with the sequencing of statements. *)
Definition except (A : Type) : Type := error + A.
Definition raise {A} (e : error) : except A := inl e.
#[global] Instance except_ret : MRet except := λ A a, inr a.
#[global] Instance except_bind : MBind except := λ A B k c,
  match c with
  | inl e => inl e
  | inr a => k a
  end.

(** [df.rename(columns=mapper)]: a header that is a key of [mapper] is
    replaced by its value, any other header stays. *)
Definition rename (mapper : gmap string string) (df : DataFrame) : DataFrame :=
  {| columns := (λ c, default c (mapper !! c)) <$> columns df;
     rows := rows df |}.

(** [row[col]]: the cell under the header named [col]; should two headers
    carry that name the first one is taken (pandas hands back both columns
    then, a case outside this development). *)
Definition cell (df : DataFrame) (r : list string) (col : string) : string :=
  default "" (list_find (λ c, c = col) (columns df) ≫= λ ic, r !! ic.1).

(** A row of the demand/supply table after [load_demand_supply]. *)
Module DS.
Record row := Row {
  NAME : string;
  SUPPLY : Qc;
  INDUSTRIAL_DEMAND : Qc;
  RESIDENTIAL_DEMAND : Qc;
}.
End DS.

Definition rename_map : gmap string string :=
  list_to_map
    [ ("DEMAND_INDUSTRY", "INDUSTRIAL_DEMAND");
      ("DEMAND_RESIDENTIAL", "RESIDENTIAL_DEMAND");
      ("name", "NAME");
      ("supply", "SUPPLY");
      ("industrial_demand", "INDUSTRIAL_DEMAND");
      ("residential_demand", "RESIDENTIAL_DEMAND") ].

Definition od_rename_map : gmap string string :=
  list_to_map
    [ ("Origin", "origin_id");
      ("Destination", "destination_id");
      ("Distance_km", "distance_km");
      ("distance", "distance_km") ].

Definition required_demand_supply : gset string :=
  {[ "NAME"; "SUPPLY"; "INDUSTRIAL_DEMAND"; "RESIDENTIAL_DEMAND" ]}.

Definition required_od : gset string :=
  {[ "origin_id"; "destination_id"; "distance_km" ]}.

(** [required - set(df.columns)] *)
Definition missing_columns (required : gset string) (df : DataFrame) : gset string :=
  required ∖ list_to_set (columns df).

(** [od.sort_values('distance_km', kind='mergesort')]: the stable sort by
    ascending distance.  A row goes in front of the first row of the
    sorted rest that is not nearer than it, hence in front of the later
    rows at its own distance. *)
Fixpoint sort_insert (x : OD.row) (l : list OD.row) : list OD.row :=
  match l with
  | [] => [x]
  | y :: l' =>
      if bool_decide (OD.distance_km x ≤ OD.distance_km y)
      then x :: y :: l'
      else y :: sort_insert x l'
  end.

Definition sort_values (l : list OD.row) : list OD.row :=
  foldr sort_insert [] l.

(** [set_index('NAME')[col].to_dict()]: a later row with the same name
    overwrites an earlier one. *)
Definition to_dict (col : DS.row → Qc) (df : list DS.row) : dict :=
  fold_left (λ m r, <[DS.NAME r := col r]> m) df ∅.

Section Loading.
(** Library functions the loaders call on cells.

    [to_numeric]: the cleaning of a numeric cell of the demand/supply
    table, [astype(str)], comma to point, [pd.to_numeric(errors='coerce')]
    and [fillna(0.0)]; it always yields a number.
    [astype_float]: the cleaning of a distance cell, comma to point and
    [astype(float)], which raises on text that is no number.
    [strip]: [str.strip()]. *)
Variable to_numeric : string → Qc.
Variable astype_float : string → option Qc.
Variable strip : string → string.

Definition load_demand_supply (csv : DataFrame) : except (list DS.row) :=
  let df := rename (filter (λ kv, kv.1 ∈ columns csv) rename_map) csv in
  let missing := missing_columns required_demand_supply df in
  if bool_decide (missing ≠ ∅) then raise (MissingColumns "demand_supply" missing)
  else
    mret ((λ r, {| DS.NAME := strip (cell df r "NAME");
                  DS.SUPPLY := to_numeric (cell df r "SUPPLY");
                  DS.INDUSTRIAL_DEMAND := to_numeric (cell df r "INDUSTRIAL_DEMAND");
                  DS.RESIDENTIAL_DEMAND := to_numeric (cell df r "RESIDENTIAL_DEMAND") |})
         <$> rows df).

(** [.astype(float)] over the distance column: the first cell that is no
    number raises. *)
Fixpoint distances (df : DataFrame) (rs : list (list string)) : except (list OD.row) :=
  match rs with
  | [] => mret []
  | r :: rs' =>
      match astype_float (cell df r "distance_km") with
      | None => raise (NotAFloat (cell df r "distance_km"))
      | Some dist =>
          rest ← distances df rs';
          mret ({| OD.origin_id := strip (cell df r "origin_id");
                  OD.destination_id := strip (cell df r "destination_id");
                  OD.distance_km := dist |} :: rest)
      end
  end.

Definition load_od (csv : DataFrame) : except (list OD.row) :=
  let od := rename od_rename_map csv in
  let missing := missing_columns required_od od in
  if bool_decide (missing ≠ ∅) then raise (MissingColumns "OD matrix" missing)
  else
    od ← distances od (rows od);
    mret (sort_values od).

(** [main], with the two tables as read from [args.demand_supply] and
    [args.od] and with [args.cutoff_km]; the result is what [main] writes
    and prints, see [alloc_df], [total_alloc], [cost_ind], [cost_res]. *)
Definition main (demand_supply_csv od_csv : DataFrame) (cutoff_km : option Qc)
    : except passes :=
  demand_supply ← load_demand_supply demand_supply_csv;
  od_df ← load_od od_csv;
  let h := main_heap (to_dict DS.SUPPLY demand_supply)
                     (to_dict DS.INDUSTRIAL_DEMAND demand_supply)
                     (to_dict DS.RESIDENTIAL_DEMAND demand_supply) in
  mret (run_passes od_df cutoff_km h).
End Loading.

(** ** Vocabulary of the properties *)

(** The smaller of two volumes. *)
Definition Qcmin (x y : Qc) : Qc := if bool_decide (x ≤ y) then x else y.

(** Remaining supply at the origin and remaining demand at the destination
    of [row], as an iteration reads them in heap [h]. *)
Definition s_left (supply_map : ref) (h : heap) (row : OD.row) : Qc :=
  get (h supply_map) (OD.origin_id row) 0.
Definition d_left (demand_map : ref) (h : heap) (row : OD.row) : Qc :=
  get (h demand_map) (OD.destination_id row) 0.

(** The iteration on [row] allocates: none of its [continue]s is taken. *)
Definition allocates (supply_map demand_map : ref) (cutoff_km : option Qc)
    (h : heap) (row : OD.row) : Prop :=
  beyond_cutoff cutoff_km (OD.distance_km row) = false
  ∧ 0 < s_left supply_map h row ∧ 0 < d_left demand_map h row.

#[global] Instance allocates_dec supply_map demand_map cutoff_km h row :
  Decision (allocates supply_map demand_map cutoff_km h row).
Proof. unfold allocates. apply _. Defined.

(** The volume an allocating iteration moves. *)
Definition volume (supply_map demand_map : ref) (h : heap) (row : OD.row) : Qc :=
  Qcmin (s_left supply_map h row) (d_left demand_map h row).

(** The record an allocating iteration appends. *)
Definition emitted (supply_map demand_map : ref) (demand_type : string)
    (h : heap) (row : OD.row) : Alloc.record :=
  {| Alloc.origin_id := OD.origin_id row;
     Alloc.destination_id := OD.destination_id row;
     Alloc.allocated_volume := volume supply_map demand_map h row;
     Alloc.distance_km := OD.distance_km row;
     Alloc.demand_type := demand_type;
     Alloc.weighted_cost := volume supply_map demand_map h row * OD.distance_km row |}.

(** The heap an allocating iteration leaves. *)
Definition decremented (supply_map demand_map : ref) (h : heap) (row : OD.row) : heap :=
  let alloc := volume supply_map demand_map h row in
  setitem (setitem h supply_map (OD.origin_id row) (s_left supply_map h row - alloc))
    demand_map (OD.destination_id row) (d_left demand_map h row - alloc).


(** A table in ascending order of distance. *)
Definition ascending (l : list OD.row) : Prop :=
  Sorted (λ x y, OD.distance_km x ≤ OD.distance_km y) l.

(** The rows of a table at distance [k], in table order. *)
Definition at_distance (k : Qc) (l : list OD.row) : list OD.row :=
  filter (λ r, OD.distance_km r = k) l.

(** ** A small run *)

(** One pair, A to B at 5 km. *)
Definition example_row : OD.row := OD.Row "A" "B" (Q2Qc 5).
Definition example_od : list OD.row := [example_row].

(** Supply {A: 10}, industrial demand {B: 6}, residential demand {B: 10}. *)
Definition example_heap : heap :=
  main_heap {[ "A" := Q2Qc 10 ]} {[ "B" := Q2Qc 6 ]} {[ "B" := Q2Qc 10 ]}.

(** The state in which a pass starts on [example_heap]. *)
Definition example_start : loop_state :=
  {| st_heap := example_heap; allocations := []; total_weighted_cost := 0 |}.

(** The industrial line of the small run. *)
Definition example_record : Alloc.record :=
  Alloc.Record_ "A" "B" (Q2Qc 6) (Q2Qc 5) "industrial" (Q2Qc 30).

(** The same inputs as two tables of cell text, and cell readers for the
    numbers that occur in them. *)
Definition example_demand_supply_csv : DataFrame :=
  {| columns := ["name"; "SUPPLY"; "DEMAND_INDUSTRY"; "RESIDENTIAL_DEMAND"];
     rows := [ ["A"; "10"; "0"; "0"]; ["B"; "0"; "6"; "10"] ] |}.

Definition example_od_csv : DataFrame :=
  {| columns := ["Origin"; "Destination"; "distance"];
     rows := [ ["A"; "B"; "5"] ] |}.

Definition example_astype_float (text : string) : option Qc :=
  if decide (text = "0") then Some (Q2Qc 0)
  else if decide (text = "5") then Some (Q2Qc 5)
  else if decide (text = "6") then Some (Q2Qc 6)
  else if decide (text = "10") then Some (Q2Qc 10)
  else None.

Definition example_to_numeric (text : string) : Qc :=
  default 0 (example_astype_float text).

Definition example_strip (text : string) : string := text.

(** Tables with a header missing. *)
Definition example_bad_demand_supply_csv : DataFrame :=
  {| columns := ["name"; "supply"; "DEMAND_INDUSTRY"];
     rows := [ ["A"; "10"; "0"] ] |}.

Definition example_bad_od_csv : DataFrame :=
  {| columns := ["Origin"; "Destination"; "km"];
     rows := [ ["A"; "B"; "5"] ] |}.

(** ** Further vocabulary *)

(** The pair a line of the result table was allocated on. *)
Definition row_of (rec : Alloc.record) : OD.row :=
  OD.Row (Alloc.origin_id rec) (Alloc.destination_id rec) (Alloc.distance_km rec).

(** The state of a pass that starts, or has appended nothing, in heap [h]. *)
Definition untouched (h : heap) : loop_state :=
  {| st_heap := h; allocations := []; total_weighted_cost := 0 |}.

(** Both names of [row] are keys of the dicts of the pass. *)
Definition known (supply_map demand_map : ref) (h : heap) (row : OD.row) : Prop :=
  OD.origin_id row ∈ dom (h supply_map)
  ∧ OD.destination_id row ∈ dom (h demand_map).

#[global] Instance known_dec supply_map demand_map h row :
  Decision (known supply_map demand_map h row).
Proof. unfold known. apply _. Defined.

(** No new name of a mapper is an old name of it. *)
Definition settled (mapper : gmap string string) : Prop :=
  map_Forall (λ _ v, mapper !! v = None) mapper.

(** A table of three pairs: A to B at 5 km, A to C at 8 km, D to B at
    9 km; D is in no dict. *)
Definition example_table : list OD.row :=
  [ OD.Row "A" "B" (Q2Qc 5); OD.Row "A" "C" (Q2Qc 8); OD.Row "D" "B" (Q2Qc 9) ].

(** Supply {A: 10}, industrial demand {B: 12, C: 3}, residential demand
    {B: 10}. *)
Definition example_heap2 : heap :=
  main_heap {[ "A" := Q2Qc 10 ]}
            (<[ "B" := Q2Qc 12 ]> {[ "C" := Q2Qc 3 ]})
            {[ "B" := Q2Qc 10 ]}.

(** A demand/supply table that names A twice. *)
Definition example_twice : list DS.row :=
  [ DS.Row "A" (Q2Qc 10) (Q2Qc 0) (Q2Qc 0);
    DS.Row "B" (Q2Qc 0) (Q2Qc 6) (Q2Qc 10);
    DS.Row "A" (Q2Qc 7) (Q2Qc 0) (Q2Qc 0) ].

(** * The allocator on binary64 numbers

    The definitions above compute with exact rationals.  The script
    computes with IEEE 754 binary64 numbers (Python floats, numpy
    float64): the subtraction, the product and the running sum round, inf
    and NaN are values, and NaN fails every comparison, the guards
    [<= 0.0] included.  [F64] is the allocator and the two passes of
    [main] again, statement for statement, on the binary64 numbers of the
    kernel; what rounding, inf and NaN make of the properties is stated on
    it.

    A volume column that holds integers only is read by pandas as int64,
    and its values reach the dicts as Python ints, which the script
    compares and subtracts exactly and converts to a float for the
    product.  [F64] takes such a value for the binary64 number equal to
    it, which every integer up to 2^53 in magnitude has; on these the
    comparisons, the subtraction and the product below give what Python
    gives. *)

(** A number of the specification of binary64 that is not below zero: a
    zero, a positive number, plus infinity, or NaN. *)
Definition not_negative (X : spec_float) : Prop :=
  SFltb X (S754_zero false) = false.

Module F64.

(** A Python dict from municipality name to volume. *)
Abbreviation dict := (gmap string float).

(** [m.get(k, dflt)] *)
Definition get (m : dict) (k : string) (dflt : float) : float :=
  default dflt (m !! k).

(** The heap holds the dict each reference designates. *)
Definition heap := ref → dict.

(** Replace the dict stored at [r]. *)
Definition heap_set (h : heap) (r : ref) (m : dict) : heap :=
  λ r', if decide (r' = r) then m else h r'.

(** [m[k] = v] on the dict object referenced by [r] *)
Definition setitem (h : heap) (r : ref) (k : string) (v : float) : heap :=
  heap_set h r (<[k := v]> (h r)).

(** A row of the OD matrix. *)
Module OD.
Record row := Row {
  origin_id : string;
  destination_id : string;
  distance_km : float;
}.
End OD.

(** A line of the result table. *)
Module Alloc.
Record record := Record_ {
  origin_id : string;
  destination_id : string;
  allocated_volume : float;
  distance_km : float;
  demand_type : string;
  weighted_cost : float;
}.
End Alloc.

Record loop_state := LoopState {
  st_heap : heap;
  allocations : list Alloc.record;
  total_weighted_cost : float;
}.

(** [cutoff_km is not None and dist > cutoff_km] *)
Definition beyond_cutoff (cutoff_km : option float) (dist : float) : bool :=
  match cutoff_km with
  | None => false
  | Some c => (c <? dist)%float
  end.

(** One iteration of [for _, row in od_df.iterrows()]; each [continue]
    returns the state as it is. *)
Definition loop_body (supply_map demand_map : ref) (demand_type : string)
    (cutoff_km : option float) (st : loop_state) (row : OD.row) : loop_state :=
  let o := OD.origin_id row in
  let d := OD.destination_id row in
  let dist := OD.distance_km row in
  if beyond_cutoff cutoff_km dist then st else
  let s_left := get (st_heap st supply_map) o 0%float in
  let d_left := get (st_heap st demand_map) d 0%float in
  if (s_left <=? 0)%float || (d_left <=? 0)%float then st else
  let alloc := if (s_left <? d_left)%float then s_left else d_left in
  if (alloc <=? 0)%float then st else
  let h1 := setitem (st_heap st) supply_map o (s_left - alloc)%float in
  let h2 := setitem h1 demand_map d (d_left - alloc)%float in
  let wcost := (alloc * dist)%float in
  {| st_heap := h2;
     allocations := allocations st ++
       [ {| Alloc.origin_id := o;
            Alloc.destination_id := d;
            Alloc.allocated_volume := alloc;
            Alloc.distance_km := dist;
            Alloc.demand_type := demand_type;
            Alloc.weighted_cost := wcost |} ];
     total_weighted_cost := (total_weighted_cost st + wcost)%float |}.

(** The loop, started from any state. *)
Definition greedy_loop (supply_map demand_map : ref) (demand_type : string)
    (cutoff_km : option float) (od_df : list OD.row) (st : loop_state) : loop_state :=
  fold_left (loop_body supply_map demand_map demand_type cutoff_km) od_df st.

(** The state of a pass that starts, or has appended nothing, in heap [h]. *)
Definition untouched (h : heap) : loop_state :=
  {| st_heap := h; allocations := []; total_weighted_cost := 0%float |}.

(** [greedy_allocate(od_df, supply_map, demand_map, demand_type, cutoff_km)]
    run in heap [h]; the result carries the heap the call leaves. *)
Definition greedy_allocate (od_df : list OD.row) (supply_map demand_map : ref)
    (demand_type : string) (cutoff_km : option float) (h : heap) : loop_state :=
  greedy_loop supply_map demand_map demand_type cutoff_km od_df (untouched h).

(** The heap right after the three lookup dicts were built. *)
Definition main_heap (supply0 ind0 res0 : dict) : heap :=
  heap_set (heap_set (heap_set (λ _, ∅) supply supply0) ind ind0) res res0.

Record passes := Passes {
  pass_ind : loop_state;
  pass_res : loop_state;
}.

(** Lines 181-191 of [main]. *)
Definition run_passes (od_df : list OD.row) (cutoff_km : option float) (h : heap)
    : passes :=
  let p1 := greedy_allocate od_df supply ind "industrial" cutoff_km h in
  let p2 := greedy_allocate od_df supply res "residential" cutoff_km (st_heap p1) in
  {| pass_ind := p1; pass_res := p2 |}.

(** [alloc_df = pd.DataFrame(alloc_ind + alloc_res)] *)
Definition alloc_df (p : passes) : list Alloc.record :=
  allocations (pass_ind p) ++ allocations (pass_res p).

(** ** Vocabulary *)

(** Remaining supply at the origin and remaining demand at the destination
    of [row], as an iteration reads them in heap [h]. *)
Definition s_left (supply_map : ref) (h : heap) (row : OD.row) : float :=
  get (h supply_map) (OD.origin_id row) 0%float.
Definition d_left (demand_map : ref) (h : heap) (row : OD.row) : float :=
  get (h demand_map) (OD.destination_id row) 0%float.

(** The iteration on [row] allocates: none of its [continue]s is taken. *)
Definition allocates (supply_map demand_map : ref) (cutoff_km : option float)
    (h : heap) (row : OD.row) : Prop :=
  beyond_cutoff cutoff_km (OD.distance_km row) = false
  ∧ (s_left supply_map h row <=? 0)%float = false
  ∧ (d_left demand_map h row <=? 0)%float = false.

#[global] Instance allocates_dec supply_map demand_map cutoff_km h row :
  Decision (allocates supply_map demand_map cutoff_km h row).
Proof. unfold allocates. apply _. Defined.

(** The volume an allocating iteration moves. *)
Definition volume (supply_map demand_map : ref) (h : heap) (row : OD.row) : float :=
  if (s_left supply_map h row <? d_left demand_map h row)%float
  then s_left supply_map h row else d_left demand_map h row.

(** The record an allocating iteration appends. *)
Definition emitted (supply_map demand_map : ref) (demand_type : string)
    (h : heap) (row : OD.row) : Alloc.record :=
  {| Alloc.origin_id := OD.origin_id row;
     Alloc.destination_id := OD.destination_id row;
     Alloc.allocated_volume := volume supply_map demand_map h row;
     Alloc.distance_km := OD.distance_km row;
     Alloc.demand_type := demand_type;
     Alloc.weighted_cost :=
       (volume supply_map demand_map h row * OD.distance_km row)%float |}.

(** The row of the table a line of the result stands for. *)
Definition row_of (rec : Alloc.record) : OD.row :=
  OD.Row (Alloc.origin_id rec) (Alloc.destination_id rec) (Alloc.distance_km rec).

(** The heap an allocating iteration leaves. *)
Definition decremented (supply_map demand_map : ref) (h : heap) (row : OD.row) : heap :=
  let alloc := volume supply_map demand_map h row in
  setitem (setitem h supply_map (OD.origin_id row)
             (s_left supply_map h row - alloc)%float)
    demand_map (OD.destination_id row) (d_left demand_map h row - alloc)%float.

(** The volumes of the lines with origin [x], and with destination [x],
    in the order of the lines. *)
Definition volumes_from (x : string) (recs : list Alloc.record) : list float :=
  Alloc.allocated_volume <$> filter (λ r, Alloc.origin_id r = x) recs.
Definition volumes_to (x : string) (recs : list Alloc.record) : list float :=
  Alloc.allocated_volume <$> filter (λ r, Alloc.destination_id r = x) recs.


(** The sum of a column, from 0 in the order of the column. *)
Definition sum (l : list float) : float := fold_left PrimFloat.add l 0%float.

(** The rational a finite binary64 number stands for. *)
Definition exact (x : float) : Q :=
  match Prim2SF x with
  | S754_finite s m e => (inject_Z (cond_Zopp s (Zpos m)) * (2 ^ e))%Q
  | _ => 0%Q
  end.

(** ** Small runs *)


Definition inf_heap : heap :=
  main_heap {[ "A" := infinity ]} {[ "B" := infinity ]} ∅.

(** The record of the first listing, and the one of the second. *)
Definition inf_record : Alloc.record :=
  Alloc.Record_ "A" "B" infinity 1%float "industrial" infinity.
Definition nan_record : Alloc.record :=
  Alloc.Record_ "A" "B" nan 1%float "industrial" nan.


(** Supply {A: 10}, industrial demand {B: 6}, residential demand {B: 10},
    A to B at 5 km, listed twice. *)
Definition twice_table : list OD.row :=
  [ OD.Row "A" "B" 5%float; OD.Row "A" "B" 5%float ].
Definition small_heap : heap :=
  main_heap {[ "A" := 10%float ]} {[ "B" := 6%float ]} {[ "B" := 10%float ]}.
Definition small_record : Alloc.record :=
  Alloc.Record_ "A" "B" 6%float 5%float "industrial" 30%float.

End F64.

(** * Properties *)

(** ** Arithmetic on [Qc] through [Q] *)

Lemma Qc_eq_Qeq (x y : Qc) : x = y ↔ (this x == this y)%Q.
Proof. split; [intros ->; reflexivity | apply Qc_is_canon]. Qed.

Lemma this_plus (x y : Qc) : (this (x + y) == this x + this y)%Q.
Proof. apply Qred_correct. Qed.

Lemma this_opp (x : Qc) : (this (- x) == - this x)%Q.
Proof. apply Qred_correct. Qed.

Lemma this_minus (x y : Qc) : (this (x - y) == this x - this y)%Q.
Proof. unfold Qcminus. rewrite this_plus, this_opp. reflexivity. Qed.

Lemma this_mult (x y : Qc) : (this (x * y) == this x * this y)%Q.
Proof. apply Qred_correct. Qed.

Lemma this_Q2Qc (q : Q) : (this (Q2Qc q) == q)%Q.
Proof. apply Qred_correct. Qed.

(** Linear goals over [Qc]: move the order and equality hypotheses to [Q]
    and let [lra] decide. *)
Ltac qc_arith :=
  repeat match goal with
  | H : @eq Qc _ _ |- _ => apply Qc_eq_Qeq in H; revert H
  | H : ¬ @eq Qc _ _ |- _ => rewrite Qc_eq_Qeq in H; revert H
  | H : Qcle _ _ |- _ => revert H
  | H : Qclt _ _ |- _ => revert H
  | H : ¬ Qcle _ _ |- _ => revert H
  | H : ¬ Qclt _ _ |- _ => revert H
  end;
  rewrite ?Qc_eq_Qeq; unfold Qcle, Qclt;
  repeat first
    [ setoid_rewrite this_minus | setoid_rewrite this_plus
    | setoid_rewrite this_opp | setoid_rewrite this_mult
    | setoid_rewrite this_Q2Qc ];
  intros; lra.

Lemma Qcmin_spec (x y : Qc) :
  Qcmin x y ≤ x ∧ Qcmin x y ≤ y ∧ (Qcmin x y = x ∨ Qcmin x y = y).
Proof.
  unfold Qcmin. case_bool_decide as Hxy.
  - split; [apply Qcle_refl | split; [exact Hxy | by left]].
  - split; [qc_arith | split; [apply Qcle_refl | by right]].
Qed.

(** [s_left if s_left < d_left else d_left] is the minimum. *)
Lemma alloc_is_min (s d : Qc) :
  (if bool_decide (s < d) then s else d) = Qcmin s d.
Proof.
  unfold Qcmin. repeat case_bool_decide; try done; qc_arith.
Qed.

(** ** The heap and [get] *)

Lemma heap_set_eq (h : heap) r m : heap_set h r m r = m.
Proof. unfold heap_set. by rewrite decide_True. Qed.

Lemma heap_set_ne (h : heap) r r' m : r' ≠ r → heap_set h r m r' = h r'.
Proof. intros. unfold heap_set. by rewrite decide_False. Qed.

Lemma get_insert_eq (m : dict) k v dflt : get (<[k := v]> m) k dflt = v.
Proof. unfold get. by rewrite lookup_insert_eq. Qed.

Lemma get_insert_ne (m : dict) k k' v dflt :
  k ≠ k' → get (<[k := v]> m) k' dflt = get m k' dflt.
Proof. intros. unfold get. by rewrite lookup_insert_ne. Qed.

Lemma get_absent (m : dict) k dflt : m !! k = None → get m k dflt = dflt.
Proof. unfold get. by intros ->. Qed.

Lemma get_setitem_eq h r k v dflt : get (setitem h r k v r) k dflt = v.
Proof. unfold setitem. by rewrite heap_set_eq, get_insert_eq. Qed.

Lemma get_setitem_ne h r k v r' k' dflt :
  r' ≠ r ∨ k ≠ k' → get (setitem h r k v r') k' dflt = get (h r') k' dflt.
Proof.
  unfold setitem. intros Hne. destruct (decide (r' = r)) as [->|].
  - rewrite heap_set_eq. destruct Hne; [done | by apply get_insert_ne].
  - by rewrite heap_set_ne.
Qed.


(** ** One iteration: skipped or allocating *)

Section Step.
Variables (supply_map demand_map : ref) (demand_type : string)
          (cutoff_km : option Qc).

Lemma loop_body_skip st row :
  ¬ allocates supply_map demand_map cutoff_km (st_heap st) row →
  loop_body supply_map demand_map demand_type cutoff_km st row = st.
Proof.
  unfold allocates, s_left, d_left, loop_body. intros Hn.
  destruct (beyond_cutoff _ _); [done|].
  repeat case_bool_decide; simpl; try done;
    exfalso; apply Hn; (split; [done | split; qc_arith]).
Qed.

Lemma loop_body_allocates st row :
  allocates supply_map demand_map cutoff_km (st_heap st) row →
  loop_body supply_map demand_map demand_type cutoff_km st row =
    {| st_heap := decremented supply_map demand_map (st_heap st) row;
       allocations := allocations st ++
         [emitted supply_map demand_map demand_type (st_heap st) row];
       total_weighted_cost :=
         total_weighted_cost st +
         Alloc.weighted_cost (emitted supply_map demand_map demand_type (st_heap st) row) |}.
Proof.
  unfold allocates, emitted, decremented, volume, s_left, d_left, loop_body.
  intros (-> & Hs & Hd).
  rewrite !alloc_is_min.
  destruct (Qcmin_spec (get (st_heap st supply_map) (OD.origin_id row) 0)
                       (get (st_heap st demand_map) (OD.destination_id row) 0))
    as (_ & _ & Hmin).
  repeat case_bool_decide; simpl; try done; exfalso; destruct Hmin; qc_arith.
Qed.

End Step.

(** ** The loop as a fold *)

Section Loop.
Variables (supply_map demand_map : ref) (demand_type : string)
          (cutoff_km : option Qc).

Lemma greedy_allocate_nil h :
  greedy_allocate [] supply_map demand_map demand_type cutoff_km h =
    {| st_heap := h; allocations := []; total_weighted_cost := 0 |}.
Proof. reflexivity. Qed.

(** The pass over [pre ++ [row]] is the pass over [pre] followed by the
    iteration on [row]. *)
Lemma greedy_allocate_snoc pre row h :
  greedy_allocate (pre ++ [row]) supply_map demand_map demand_type cutoff_km h =
    loop_body supply_map demand_map demand_type cutoff_km
      (greedy_allocate pre supply_map demand_map demand_type cutoff_km h) row.
Proof. unfold greedy_allocate, greedy_loop. by rewrite fold_left_app. Qed.

Lemma greedy_loop_app l1 l2 st :
  greedy_loop supply_map demand_map demand_type cutoff_km (l1 ++ l2) st =
    greedy_loop supply_map demand_map demand_type cutoff_km l2
      (greedy_loop supply_map demand_map demand_type cutoff_km l1 st).
Proof. unfold greedy_loop. by rewrite fold_left_app. Qed.

(** The decisions of an iteration read the heap only: records and total
    already accumulated are carried along. *)
Lemma loop_body_from st row :
  let st1 := loop_body supply_map demand_map demand_type cutoff_km
               {| st_heap := st_heap st; allocations := [];
                  total_weighted_cost := 0 |} row in
  loop_body supply_map demand_map demand_type cutoff_km st row =
    {| st_heap := st_heap st1;
       allocations := allocations st ++ allocations st1;
       total_weighted_cost := total_weighted_cost st + total_weighted_cost st1 |}.
Proof.
  destruct (decide (allocates supply_map demand_map cutoff_km (st_heap st) row)) as [Ha|Hn].
  - simpl. rewrite !loop_body_allocates by done. simpl. f_equal. qc_arith.
  - simpl. rewrite !loop_body_skip by done. simpl. destruct st; simpl.
    rewrite app_nil_r. f_equal. qc_arith.
Qed.

Lemma greedy_loop_from od st :
  let run := greedy_allocate od supply_map demand_map demand_type cutoff_km (st_heap st) in
  greedy_loop supply_map demand_map demand_type cutoff_km od st =
    {| st_heap := st_heap run;
       allocations := allocations st ++ allocations run;
       total_weighted_cost := total_weighted_cost st + total_weighted_cost run |}.
Proof.
  induction od as [|row od IH] using rev_ind; simpl.
  - destruct st; simpl. rewrite app_nil_r. f_equal. qc_arith.
  - rewrite greedy_allocate_snoc, greedy_loop_app. simpl in IH. rewrite IH.
    unfold greedy_loop at 1. simpl.
    rewrite loop_body_from. simpl.
    rewrite (loop_body_from (greedy_allocate od _ _ _ _ _)). simpl.
    rewrite app_assoc. f_equal. qc_arith.
Qed.

(** Splitting a pass at any row. *)
Lemma greedy_allocate_app pre post h :
  let st := greedy_allocate pre supply_map demand_map demand_type cutoff_km h in
  let run := greedy_allocate post supply_map demand_map demand_type cutoff_km (st_heap st) in
  greedy_allocate (pre ++ post) supply_map demand_map demand_type cutoff_km h =
    {| st_heap := st_heap run;
       allocations := allocations st ++ allocations run;
       total_weighted_cost := total_weighted_cost st + total_weighted_cost run |}.
Proof.
  simpl. unfold greedy_allocate at 1. rewrite greedy_loop_app.
  apply (greedy_loop_from post (greedy_allocate pre _ _ _ _ h)).
Qed.

(** Every record of a pass was appended by an allocating iteration on some
    row of the table, in the heap the preceding rows left. *)
Lemma allocations_trace od h rec :
  rec ∈ allocations (greedy_allocate od supply_map demand_map demand_type cutoff_km h) →
  ∃ pre row post,
    od = pre ++ row :: post
    ∧ let st := greedy_allocate pre supply_map demand_map demand_type cutoff_km h in
      allocates supply_map demand_map cutoff_km (st_heap st) row
      ∧ rec = emitted supply_map demand_map demand_type (st_heap st) row.
Proof.
  induction od as [|row od IH] using rev_ind.
  - rewrite greedy_allocate_nil. simpl. by intros ?%elem_of_nil.
  - rewrite greedy_allocate_snoc.
    destruct (decide (allocates supply_map demand_map cutoff_km
      (st_heap (greedy_allocate od supply_map demand_map demand_type cutoff_km h)) row))
      as [Ha|Hn].
    + rewrite loop_body_allocates by done. simpl.
      intros [Hin | ->%list_elem_of_singleton]%elem_of_app.
      * destruct (IH Hin) as (pre & row' & post & -> & Hrow).
        exists pre, row', (post ++ [row]). split; [|exact Hrow].
        by rewrite <- app_assoc.
      * exists od, row, []. done.
    + rewrite loop_body_skip by done. intros Hin.
      destruct (IH Hin) as (pre & row' & post & -> & Hrow).
      exists pre, row', (post ++ [row]). split; [|exact Hrow].
      by rewrite <- app_assoc.
Qed.

End Loop.

(** ** Sums of columns *)






(** ** What an allocating iteration does to the heap *)

Section Decrement.
Variables (supply_map demand_map : ref).

Lemma volume_spec h row :
  let a := volume supply_map demand_map h row in
  a ≤ s_left supply_map h row ∧ a ≤ d_left demand_map h row
  ∧ (a = s_left supply_map h row ∨ a = d_left demand_map h row).
Proof. apply Qcmin_spec. Qed.

Lemma volume_pos cutoff_km h row :
  allocates supply_map demand_map cutoff_km h row →
  0 < volume supply_map demand_map h row.
Proof.
  intros (_ & Hs & Hd).
  destruct (volume_spec h row) as (_ & _ & [-> | ->]); done.
Qed.

(** The demand dict is written last: its entry at the destination is the
    remaining demand less the volume. *)
Lemma decremented_demand h row :
  get (decremented supply_map demand_map h row demand_map) (OD.destination_id row) 0 =
    d_left demand_map h row - volume supply_map demand_map h row.
Proof. unfold decremented. simpl. apply get_setitem_eq. Qed.

(** The entry of the supply dict at the origin is the remaining supply
    less the volume, unless the very same entry is the demand entry. *)
Lemma decremented_supply h row :
  supply_map ≠ demand_map ∨ OD.origin_id row ≠ OD.destination_id row →
  get (decremented supply_map demand_map h row supply_map) (OD.origin_id row) 0 =
    s_left supply_map h row - volume supply_map demand_map h row.
Proof.
  intros Hne. unfold decremented. simpl.
  rewrite get_setitem_ne; [apply get_setitem_eq|].
  destruct Hne; [by left | right; congruence].
Qed.

(** Every other entry of every dict is as before. *)
Lemma decremented_other h row r k :
  r ≠ supply_map ∨ k ≠ OD.origin_id row →
  r ≠ demand_map ∨ k ≠ OD.destination_id row →
  get (decremented supply_map demand_map h row r) k 0 = get (h r) k 0.
Proof.
  intros Hs Hd. unfold decremented. simpl.
  rewrite !get_setitem_ne; [done | |].
  - destruct Hs; [by left | right; congruence].
  - destruct Hd; [by left | right; congruence].
Qed.


(** An entry never grows, a non-negative entry stays non-negative, and an
    entry that is not positive is not written. *)
Lemma decremented_bounds cutoff_km h row r k :
  allocates supply_map demand_map cutoff_km h row →
  let v := get (h r) k 0 in
  let v' := get (decremented supply_map demand_map h row r) k 0 in
  v' ≤ v ∧ (0 ≤ v → 0 ≤ v') ∧ (v ≤ 0 → v' = v).
Proof.
  intros Ha. pose proof Ha as (_ & Hs & Hd).
  destruct (volume_spec h row) as (Has & Had & _).
  pose proof (volume_pos _ _ _ Ha) as Hpos. simpl in *.
  destruct (decide (r = demand_map ∧ k = OD.destination_id row)) as [[-> ->]|Hnd].
  { rewrite decremented_demand. fold (d_left demand_map h row).
    split; [|split]; intros; qc_arith. }
  destruct (decide (r = supply_map ∧ k = OD.origin_id row)) as [[-> ->]|Hns].
  { rewrite decremented_supply.
    - fold (s_left supply_map h row). split; [|split]; intros; qc_arith.
    - destruct (decide (supply_map = demand_map)) as [->|]; [|by left].
      right. intros Heq. apply Hnd. by rewrite Heq. }
  rewrite decremented_other.
  - split; [apply Qcle_refl | split; done].
  - apply not_and_l in Hns. destruct Hns; [by left | by right].
  - apply not_and_l in Hnd. destruct Hnd; [by left | by right].
Qed.

End Decrement.

(** ** Invariants of a pass *)

Section Pass.
Variables (supply_map demand_map : ref) (demand_type : string)
          (cutoff_km : option Qc).


(** Over a whole pass an entry never grows, stays non-negative if it was,
    and is never written once it is not positive. *)
Lemma pass_bounds od h r k :
  let v := get (h r) k 0 in
  let v' := get (st_heap (greedy_allocate od supply_map demand_map demand_type
                            cutoff_km h) r) k 0 in
  v' ≤ v ∧ (0 ≤ v → 0 ≤ v') ∧ (v ≤ 0 → v' = v).
Proof.
  induction od as [|row od IH] using rev_ind; simpl.
  { split; [apply Qcle_refl | split; done]. }
  rewrite greedy_allocate_snoc. simpl in IH. destruct IH as (IH1 & IH2 & IH3).
  destruct (decide (allocates supply_map demand_map cutoff_km
    (st_heap (greedy_allocate od supply_map demand_map demand_type cutoff_km h)) row))
    as [Ha|Hn].
  - rewrite loop_body_allocates by done. simpl.
    destruct (decremented_bounds _ _ _ _ _ r k Ha) as (B1 & B2 & B3). simpl in *.
    split; [|split].
    + by eapply Qcle_trans.
    + auto.
    + intros Hv. rewrite B3; [auto|]. by rewrite IH3.
  - rewrite loop_body_skip by done. done.
Qed.



End Pass.

(** ** The single pass *)



(** C6.  A row whose origin has no supply left, or whose destination has
    no demand left, a name absent from the dict counting as 0, leaves the
    state of the loop as it is: no record, both dicts and the total
    untouched.  The pass gives the same result as over the table without
    that row. *)
Theorem skipped_pair_frame supply_map demand_map demand_type cutoff_km st row :
  st_heap st supply_map !! OD.origin_id row = None
  ∨ get (st_heap st supply_map) (OD.origin_id row) 0 ≤ 0
  ∨ st_heap st demand_map !! OD.destination_id row = None
  ∨ get (st_heap st demand_map) (OD.destination_id row) 0 ≤ 0 →
  loop_body supply_map demand_map demand_type cutoff_km st row = st
  ∧ ∀ pre post h,
      st = greedy_allocate pre supply_map demand_map demand_type cutoff_km h →
      greedy_allocate (pre ++ [row]) supply_map demand_map demand_type cutoff_km h = st
      ∧ greedy_allocate (pre ++ row :: post) supply_map demand_map demand_type cutoff_km h
        = greedy_allocate (pre ++ post) supply_map demand_map demand_type cutoff_km h.
Proof.
  intros Hskip.
  assert (loop_body supply_map demand_map demand_type cutoff_km st row = st) as Hst.
  { apply loop_body_skip. intros (_ & Hs & Hd). unfold s_left, d_left in *.
    destruct Hskip as [Habs | [Hle | [Habs | Hle]]].
    - rewrite (get_absent _ _ _ Habs) in Hs. qc_arith.
    - qc_arith.
    - rewrite (get_absent _ _ _ Habs) in Hd. qc_arith.
    - qc_arith. }
  split; [done|]. intros pre post h ->.
  assert (greedy_allocate (pre ++ [row]) supply_map demand_map demand_type cutoff_km h
          = greedy_allocate pre supply_map demand_map demand_type cutoff_km h) as Hsnoc.
  { by rewrite greedy_allocate_snoc. }
  split; [done|].
  change (row :: post) with ([row] ++ post). rewrite app_assoc.
  unfold greedy_allocate in *.
  rewrite (greedy_loop_app _ _ _ _ (pre ++ [row]) post).
  rewrite (greedy_loop_app _ _ _ _ pre post). by rewrite Hsnoc.
Qed.

(** C7.  The total a pass returns is the sum of the weighted costs of the
    records it returns, added up from 0 in the order of emission. *)
Theorem total_is_sum_of_records od supply_map demand_map demand_type cutoff_km h :
  let run := greedy_allocate od supply_map demand_map demand_type cutoff_km h in
  total_weighted_cost run = fold_left Qcplus (Alloc.weighted_cost <$> allocations run) 0.
Proof.
  induction od as [|row od IH] using rev_ind; simpl; [done|].
  rewrite greedy_allocate_snoc. simpl in IH.
  destruct (decide (allocates supply_map demand_map cutoff_km
    (st_heap (greedy_allocate od supply_map demand_map demand_type cutoff_km h)) row)).
  - rewrite loop_body_allocates by done. simpl.
    by rewrite fmap_app, fold_left_app, <- IH.
  - by rewrite loop_body_skip.
Qed.

(** ** The two passes *)



Lemma filter_drop {A} (P : A → Prop) `{!∀ x, Decision (P x)} (l : list A) :
  (∀ x, x ∈ l → ¬ P x) → filter P l = [].
Proof.
  induction l as [|a l IH]; intros Hall; [done|].
  rewrite filter_cons, decide_False by (apply Hall; left).
  apply IH. intros x Hx. apply Hall. by right.
Qed.


(** C5.  Supply {A: 10}, industrial demand {B: 6}, residential demand
    {B: 10}, one pair A→B at 5 km, cutoff 50 km: one industrial line of 6
    (supply left at A 4, industrial demand left at B 0), then one
    residential line of 4 (supply left at A 0, residential demand left at
    B 6); total allocated 10, weighted costs 30 and 20. *)
Theorem worked_example :
  let od_df := sort_values [OD.Row "A" "B" (Q2Qc 5)] in
  let h := main_heap {[ "A" := Q2Qc 10 ]} {[ "B" := Q2Qc 6 ]} {[ "B" := Q2Qc 10 ]} in
  let p := run_passes od_df (Some (Q2Qc 50)) h in
  allocations (pass_ind p) =
    [ Alloc.Record_ "A" "B" (Q2Qc 6) (Q2Qc 5) "industrial" (Q2Qc 30) ]
  ∧ st_heap (pass_ind p) supply = {[ "A" := Q2Qc 4 ]}
  ∧ st_heap (pass_ind p) ind = {[ "B" := Q2Qc 0 ]}
  ∧ allocations (pass_res p) =
    [ Alloc.Record_ "A" "B" (Q2Qc 4) (Q2Qc 5) "residential" (Q2Qc 20) ]
  ∧ st_heap (pass_res p) supply = {[ "A" := Q2Qc 0 ]}
  ∧ st_heap (pass_res p) res = {[ "B" := Q2Qc 6 ]}
  ∧ st_heap (pass_res p) ind = {[ "B" := Q2Qc 0 ]}
  ∧ alloc_df p =
    [ Alloc.Record_ "A" "B" (Q2Qc 6) (Q2Qc 5) "industrial" (Q2Qc 30);
      Alloc.Record_ "A" "B" (Q2Qc 4) (Q2Qc 5) "residential" (Q2Qc 20) ]
  ∧ total_alloc p = Q2Qc 10
  ∧ cost_ind p = Q2Qc 30
  ∧ cost_res p = Q2Qc 20.
Proof. vm_compute. repeat split. Qed.

(** The same inputs with cutoff 3 km: no line in either pass, nothing
    allocated, the dicts as seeded. *)
Lemma worked_example_cutoff_3 :
  let od_df := sort_values [OD.Row "A" "B" (Q2Qc 5)] in
  let h := main_heap {[ "A" := Q2Qc 10 ]} {[ "B" := Q2Qc 6 ]} {[ "B" := Q2Qc 10 ]} in
  let p := run_passes od_df (Some (Q2Qc 3)) h in
  alloc_df p = [] ∧ total_alloc p = 0
  ∧ st_heap (pass_res p) supply = {[ "A" := Q2Qc 10 ]}.
Proof. vm_compute. repeat split. Qed.

(** ** Sorting the distance table *)

#[local] Instance distance_le_trans :
  Transitive (λ x y : OD.row, OD.distance_km x ≤ OD.distance_km y).
Proof. intros x y z. apply Qcle_trans. Qed.

Lemma ascending_nil : ascending [].
Proof. constructor. Qed.

(** In an ascending table the first row is at most as far as every other. *)
Lemma ascending_cons x l :
  ascending (x :: l) ↔
  Forall (λ y, OD.distance_km x ≤ OD.distance_km y) l ∧ ascending l.
Proof.
  unfold ascending. split.
  - intros Hs. apply Sorted_StronglySorted in Hs; [|apply _].
    apply StronglySorted_cons in Hs as [Hall Hs].
    split; [done | by apply StronglySorted_Sorted].
  - intros [Hall Hs]. constructor; [done|].
    destruct Hall; constructor; done.
Qed.

Lemma sort_insert_perm x l : sort_insert x l ≡ₚ x :: l.
Proof.
  induction l as [|y l IH]; simpl; [done|].
  case_bool_decide; [done|]. rewrite IH. apply Permutation_swap.
Qed.

Lemma sort_values_perm l : sort_values l ≡ₚ l.
Proof.
  induction l as [|x l IH]; simpl; [done|].
  by rewrite sort_insert_perm, IH.
Qed.

Lemma sort_insert_ascending x l : ascending l → ascending (sort_insert x l).
Proof.
  induction l as [|y l IH]; simpl; intros Hs.
  - apply ascending_cons. split; [constructor | done].
  - case_bool_decide as Hxy.
    + apply ascending_cons. split; [|done].
      apply ascending_cons in Hs as [Hall _]. constructor; [done|].
      eapply Forall_impl; [exact Hall|]. simpl. intros z Hz. by eapply Qcle_trans.
    + apply ascending_cons in Hs as [Hall Hs].
      apply ascending_cons. split; [|by apply IH].
      rewrite sort_insert_perm. constructor; [qc_arith | done].
Qed.

Lemma sort_values_ascending l : ascending (sort_values l).
Proof.
  induction l as [|x l IH]; simpl; [apply ascending_nil|].
  by apply sort_insert_ascending.
Qed.

(** Inserting a row puts it in front of the rows at its own distance and
    leaves the rows at every other distance as they are. *)
Lemma sort_insert_at_distance k x l :
  at_distance k (sort_insert x l) = at_distance k (x :: l).
Proof.
  unfold at_distance. induction l as [|y l IH]; simpl; [done|].
  case_bool_decide as Hxy; [done|].
  rewrite (filter_cons _ y), IH, !filter_cons.
  repeat case_decide; try done. exfalso. apply Hxy. subst k.
  assert (OD.distance_km x = OD.distance_km y) as -> by congruence.
  apply Qcle_refl.
Qed.

Lemma sort_values_at_distance k l :
  at_distance k (sort_values l) = at_distance k l.
Proof.
  induction l as [|x l IH]; simpl; [done|].
  rewrite sort_insert_at_distance. unfold at_distance in *.
  by rewrite !filter_cons, IH.
Qed.

Lemma sort_values_ascending_id l : ascending l → sort_values l = l.
Proof.
  induction l as [|x l IH]; simpl; [done|].
  intros [Hall Hs]%ascending_cons. rewrite IH by done.
  destruct Hall as [|y l Hxy _]; simpl; [done|].
  by rewrite bool_decide_eq_true_2.
Qed.

(** An ascending arrangement that keeps, at every distance, the rows in
    their order is unique: any stable sort gives [sort_values]. *)
Lemma ascending_stable_unique l1 l2 :
  ascending l1 → ascending l2 →
  (∀ k, at_distance k l1 = at_distance k l2) → l1 = l2.
Proof.
  revert l2. induction l1 as [|x l1 IH]; intros l2 H1 H2 Heq.
  - destruct l2 as [|y l2]; [done|].
    specialize (Heq (OD.distance_km y)). unfold at_distance in Heq.
    rewrite filter_nil, filter_cons, decide_True in Heq by done. done.
  - destruct l2 as [|y l2].
    { specialize (Heq (OD.distance_km x)). unfold at_distance in Heq.
      rewrite filter_nil, filter_cons, decide_True in Heq by done. done. }
    apply ascending_cons in H1 as [Hall1 H1].
    apply ascending_cons in H2 as [Hall2 H2].
    assert (OD.distance_km x = OD.distance_km y) as Hk.
    { apply Qcle_antisym.
      - assert (y ∈ x :: l1) as Hin.
        { pose proof (Heq (OD.distance_km y)) as Hy. unfold at_distance in Hy.
          rewrite (filter_cons _ y), decide_True in Hy by done.
          assert (y ∈ filter (λ r, OD.distance_km r = OD.distance_km y) (x :: l1))
            as Hin by (rewrite Hy; left).
          by apply list_elem_of_filter in Hin as [_ Hin]. }
        apply elem_of_cons in Hin as [->|Hin]; [apply Qcle_refl|].
        rewrite Forall_forall in Hall1. by apply Hall1.
      - assert (x ∈ y :: l2) as Hin.
        { pose proof (Heq (OD.distance_km x)) as Hx. unfold at_distance in Hx.
          rewrite (filter_cons _ x), decide_True in Hx by done.
          assert (x ∈ filter (λ r, OD.distance_km r = OD.distance_km x) (y :: l2))
            as Hin by (rewrite <- Hx; left).
          by apply list_elem_of_filter in Hin as [_ Hin]. }
        apply elem_of_cons in Hin as [->|Hin]; [apply Qcle_refl|].
        rewrite Forall_forall in Hall2. by apply Hall2. }
    assert (x = y) as ->.
    { specialize (Heq (OD.distance_km x)). unfold at_distance in Heq.
      rewrite !filter_cons in Heq. rewrite decide_True in Heq by done.
      rewrite decide_True in Heq by done. congruence. }
    f_equal. apply IH; [done | done |]. intros k.
    specialize (Heq k). unfold at_distance in *. rewrite !filter_cons in Heq.
    case_decide; congruence.
Qed.

Lemma stable_sort_unique l l' :
  ascending l' → (∀ k, at_distance k l' = at_distance k l) → l' = sort_values l.
Proof.
  intros Hs Hst. apply ascending_stable_unique; [done | apply sort_values_ascending |].
  intros k. by rewrite sort_values_at_distance.
Qed.

(** C9.  [sort_values] puts the table in ascending order of distance,
    keeps its rows, and keeps the rows at each distance in their input
    order; an ascending table comes out as it went in, so sorting twice
    is sorting once. *)
Theorem sort_values_stable_idempotent l :
  ascending (sort_values l)
  ∧ sort_values l ≡ₚ l
  ∧ (∀ k, at_distance k (sort_values l) = at_distance k l)
  ∧ (ascending l → sort_values l = l)
  ∧ sort_values (sort_values l) = sort_values l.
Proof.
  split; [apply sort_values_ascending|].
  split; [apply sort_values_perm|].
  split; [intros k; apply sort_values_at_distance|].
  split; [apply sort_values_ascending_id|].
  apply sort_values_ascending_id, sort_values_ascending.
Qed.

(** ** Loading *)

Lemma elem_of_missing_columns required df c :
  c ∈ missing_columns required df ↔ c ∈ required ∧ c ∉ columns df.
Proof.
  unfold missing_columns. by rewrite elem_of_difference, elem_of_list_to_set.
Qed.

Section LoadingProperties.
Variable to_numeric : string → Qc.
Variable astype_float : string → option Qc.
Variable strip : string → string.

Lemma load_demand_supply_missing csv :
  let df := rename (filter (λ kv, kv.1 ∈ columns csv) rename_map) csv in
  missing_columns required_demand_supply df ≠ ∅ →
  load_demand_supply to_numeric strip csv =
    raise (MissingColumns "demand_supply" (missing_columns required_demand_supply df)).
Proof.
  simpl. intros Hm. unfold load_demand_supply. by rewrite bool_decide_eq_true_2.
Qed.

Lemma load_od_missing csv :
  let od := rename od_rename_map csv in
  missing_columns required_od od ≠ ∅ →
  load_od astype_float strip csv =
    raise (MissingColumns "OD matrix" (missing_columns required_od od)).
Proof.
  simpl. intros Hm. unfold load_od. by rewrite bool_decide_eq_true_2.
Qed.

(** A distance table that loads comes out ascending. *)
Lemma load_od_ascending csv od_df :
  load_od astype_float strip csv = mret od_df → ascending od_df.
Proof.
  unfold load_od. case_bool_decide; [done|].
  destruct (distances _ _ _ _) as [e|od]; simpl; [done|].
  intros [= <-]. apply sort_values_ascending.
Qed.

(** A run that ends well has loaded both tables and is the two passes over
    the sorted distance table, on the heap of the three dicts. *)
Lemma main_runs_passes demand_supply_csv od_csv cutoff_km p :
  main to_numeric astype_float strip demand_supply_csv od_csv cutoff_km = mret p →
  ∃ demand_supply od_df,
    load_demand_supply to_numeric strip demand_supply_csv = mret demand_supply
    ∧ load_od astype_float strip od_csv = mret od_df
    ∧ ascending od_df
    ∧ p = run_passes od_df cutoff_km
            (main_heap (to_dict DS.SUPPLY demand_supply)
                       (to_dict DS.INDUSTRIAL_DEMAND demand_supply)
                       (to_dict DS.RESIDENTIAL_DEMAND demand_supply)).
Proof.
  unfold main.
  destruct (load_demand_supply to_numeric strip demand_supply_csv) as [e|ds]; [done|].
  destruct (load_od astype_float strip od_csv) as [e|od_df] eqn:Hod; [done|].
  simpl. intros [= <-]. exists ds, od_df.
  split; [done|]. split; [done|]. split; [|done].
  by eapply load_od_ascending.
Qed.

End LoadingProperties.

(** C8.  When a required column [c] is not among the headers of a table
    after the renaming, the loader raises the error that carries exactly
    the required headers that are absent, [c] among them; [main] ends with
    an error then, without a result of any pass: with the demand/supply
    error whatever the distance table is, and, for a distance table with a
    header missing, with the distance-table error once the demand/supply
    table loaded. *)
Theorem missing_columns_abort to_numeric astype_float strip :
  (∀ csv c,
     let df := rename (filter (λ kv, kv.1 ∈ columns csv) rename_map) csv in
     let missing := missing_columns required_demand_supply df in
     c ∈ required_demand_supply → c ∉ columns df →
     c ∈ missing
     ∧ (∀ c', c' ∈ missing ↔ c' ∈ required_demand_supply ∧ c' ∉ columns df)
     ∧ load_demand_supply to_numeric strip csv =
         raise (MissingColumns "demand_supply" missing)
     ∧ ∀ od_csv cutoff_km,
         main to_numeric astype_float strip csv od_csv cutoff_km =
           raise (MissingColumns "demand_supply" missing))
  ∧ (∀ csv c,
     let od := rename od_rename_map csv in
     let missing := missing_columns required_od od in
     c ∈ required_od → c ∉ columns od →
     c ∈ missing
     ∧ (∀ c', c' ∈ missing ↔ c' ∈ required_od ∧ c' ∉ columns od)
     ∧ load_od astype_float strip csv = raise (MissingColumns "OD matrix" missing)
     ∧ ∀ demand_supply_csv cutoff_km,
         (∃ e, main to_numeric astype_float strip demand_supply_csv csv cutoff_km
               = raise e)
         ∧ ∀ demand_supply,
             load_demand_supply to_numeric strip demand_supply_csv = mret demand_supply →
             main to_numeric astype_float strip demand_supply_csv csv cutoff_km =
               raise (MissingColumns "OD matrix" missing)).
Proof.
  split.
  - intros csv c df missing Hreq Habs.
    assert (c ∈ missing) as Hc by (by apply elem_of_missing_columns).
    assert (missing ≠ ∅) as Hne by (intros Heq; rewrite Heq in Hc; set_solver).
    split; [done|]. split; [intros c'; apply elem_of_missing_columns|].
    pose proof (load_demand_supply_missing to_numeric strip csv Hne) as Hload.
    split; [done|]. intros od_csv cutoff_km. unfold main. by rewrite Hload.
  - intros csv c od missing Hreq Habs.
    assert (c ∈ missing) as Hc by (by apply elem_of_missing_columns).
    assert (missing ≠ ∅) as Hne by (intros Heq; rewrite Heq in Hc; set_solver).
    split; [done|]. split; [intros c'; apply elem_of_missing_columns|].
    pose proof (load_od_missing astype_float strip csv Hne) as Hload.
    split; [done|]. intros ds_csv cutoff_km. split.
    + unfold main. rewrite Hload.
      destruct (load_demand_supply to_numeric strip ds_csv) as [e|ds]; simpl; eauto.
    + intros ds Hds. unfold main. by rewrite Hds, Hload.
Qed.

(** ** The small run, end to end *)

(** [main] on the two example tables: the lines, the total volume and the
    two weighted costs of the worked example. *)
Lemma main_worked_example :
  ∃ p,
    main example_to_numeric example_astype_float example_strip
      example_demand_supply_csv example_od_csv (Some (Q2Qc 50)) = mret p
    ∧ alloc_df p =
        [ Alloc.Record_ "A" "B" (Q2Qc 6) (Q2Qc 5) "industrial" (Q2Qc 30);
          Alloc.Record_ "A" "B" (Q2Qc 4) (Q2Qc 5) "residential" (Q2Qc 20) ]
    ∧ total_alloc p = Q2Qc 10 ∧ cost_ind p = Q2Qc 30 ∧ cost_res p = Q2Qc 20.
Proof.
  eexists. split; [reflexivity|]. vm_compute. repeat split.
Qed.

(** ** The properties on the small run *)



(** The pair B to A: no supply is recorded at B. *)
Lemma skipped_pair_frame_witness :
  let row := OD.Row "B" "A" (Q2Qc 5) in
  st_heap example_start supply !! OD.origin_id row = None
  ∧ loop_body supply ind "industrial" (Some (Q2Qc 50)) example_start row = example_start
  ∧ ∀ pre post h,
      example_start = greedy_allocate pre supply ind "industrial" (Some (Q2Qc 50)) h →
      greedy_allocate (pre ++ [row]) supply ind "industrial" (Some (Q2Qc 50)) h
        = example_start
      ∧ greedy_allocate (pre ++ row :: post) supply ind "industrial" (Some (Q2Qc 50)) h
        = greedy_allocate (pre ++ post) supply ind "industrial" (Some (Q2Qc 50)) h.
Proof.
  assert (st_heap example_start supply !! OD.origin_id (OD.Row "B" "A" (Q2Qc 5)) = None)
    as Habs by (vm_compute; reflexivity).
  split; [exact Habs|].
  exact (skipped_pair_frame supply ind "industrial" (Some (Q2Qc 50)) example_start
           (OD.Row "B" "A" (Q2Qc 5)) (or_introl Habs)).
Defined.

Lemma missing_columns_abort_witness :
  let df := rename (filter (λ kv, kv.1 ∈ columns example_bad_demand_supply_csv) rename_map)
              example_bad_demand_supply_csv in
  let od := rename od_rename_map example_bad_od_csv in
  (("RESIDENTIAL_DEMAND" ∈ required_demand_supply)
   ∧ ("RESIDENTIAL_DEMAND" ∉ columns df)
   ∧ ("distance_km" ∈ required_od)
   ∧ ("distance_km" ∉ columns od)
   ∧ load_demand_supply example_to_numeric example_strip example_demand_supply_csv
     = mret [ DS.Row "A" (Q2Qc 10) (Q2Qc 0) (Q2Qc 0);
              DS.Row "B" (Q2Qc 0) (Q2Qc 6) (Q2Qc 10) ])
  ∧ load_demand_supply example_to_numeric example_strip example_bad_demand_supply_csv
    = raise (MissingColumns "demand_supply" {[ "RESIDENTIAL_DEMAND" ]})
  ∧ main example_to_numeric example_astype_float example_strip
      example_bad_demand_supply_csv example_od_csv (Some (Q2Qc 50))
    = raise (MissingColumns "demand_supply" (missing_columns required_demand_supply df))
  ∧ load_od example_astype_float example_strip example_bad_od_csv
    = raise (MissingColumns "OD matrix" {[ "distance_km" ]})
  ∧ main example_to_numeric example_astype_float example_strip
      example_demand_supply_csv example_bad_od_csv (Some (Q2Qc 50))
    = raise (MissingColumns "OD matrix" (missing_columns required_od od)).
Proof.
  set (df := rename (filter (λ kv, kv.1 ∈ columns example_bad_demand_supply_csv) rename_map)
               example_bad_demand_supply_csv).
  set (od := rename od_rename_map example_bad_od_csv).
  assert ("RESIDENTIAL_DEMAND" ∈ required_demand_supply) as H1
    by (apply (bool_decide_unpack _); vm_compute; exact I).
  assert ("RESIDENTIAL_DEMAND" ∉ columns df) as H2
    by (apply (bool_decide_unpack _); vm_compute; exact I).
  assert ("distance_km" ∈ required_od) as H3
    by (apply (bool_decide_unpack _); vm_compute; exact I).
  assert ("distance_km" ∉ columns od) as H4
    by (apply (bool_decide_unpack _); vm_compute; exact I).
  assert (load_demand_supply example_to_numeric example_strip example_demand_supply_csv
     = mret [ DS.Row "A" (Q2Qc 10) (Q2Qc 0) (Q2Qc 0);
              DS.Row "B" (Q2Qc 0) (Q2Qc 6) (Q2Qc 10) ]) as H5
    by (vm_compute; reflexivity).
  destruct (missing_columns_abort example_to_numeric example_astype_float example_strip)
    as (Hds & Hod).
  destruct (Hds example_bad_demand_supply_csv "RESIDENTIAL_DEMAND" H1 H2)
    as (_ & _ & Hload & Hmain).
  destruct (Hod example_bad_od_csv "distance_km" H3 H4) as (_ & _ & Hload' & Hmain').
  simpl. split; [by repeat split|].
  split; [rewrite Hload; f_equal; f_equal; apply leibniz_equiv; by vm_compute|].
  split; [apply Hmain|].
  split; [rewrite Hload'; f_equal; f_equal; apply leibniz_equiv; by vm_compute|].
  exact (proj2 (Hmain' example_demand_supply_csv (Some (Q2Qc 50))) _ H5).
Defined.

Lemma sort_values_stable_idempotent_witness :
  let l := [OD.Row "A" "C" (Q2Qc 3); OD.Row "A" "B" (Q2Qc 5); OD.Row "B" "C" (Q2Qc 5)] in
  ascending l ∧ sort_values l = l.
Proof.
  assert (ascending [OD.Row "A" "C" (Q2Qc 3); OD.Row "A" "B" (Q2Qc 5);
                     OD.Row "B" "C" (Q2Qc 5)]) as Hasc.
  { repeat constructor; vm_compute; discriminate. }
  split; [exact Hasc|].
  destruct (sort_values_stable_idempotent
              [OD.Row "A" "C" (Q2Qc 3); OD.Row "A" "B" (Q2Qc 5); OD.Row "B" "C" (Q2Qc 5)])
    as (_ & _ & _ & Hid & _).
  exact (Hid Hasc).
Defined.

(** * Further properties of the allocator *)

(** ** What a pass leaves, and the priority of industrial demand *)

(** Right after an allocating iteration one of the two entries it read
    is 0. *)
Lemma decremented_zero supply_map demand_map h row :
  let h' := decremented supply_map demand_map h row in
  get (h' supply_map) (OD.origin_id row) 0 = 0
  ∨ get (h' demand_map) (OD.destination_id row) 0 = 0.
Proof.
  simpl.
  destruct (volume_spec supply_map demand_map h row) as (_ & _ & [Hv|Hv]).
  - destruct (decide (supply_map = demand_map ∧
                      OD.origin_id row = OD.destination_id row)) as [[Hr Hk]|Hn].
    + right. rewrite decremented_demand.
      assert (s_left supply_map h row = d_left demand_map h row)
        as Hsame by (unfold s_left, d_left; by rewrite Hr, Hk).
      qc_arith.
    + left. rewrite decremented_supply; [qc_arith|].
      apply not_and_l in Hn. destruct Hn; [by left | by right].
  - right. rewrite decremented_demand. qc_arith.
Qed.


(** After a pass, every row of the table within the cutoff has no supply
    left at its origin or no demand left at its destination. *)
Lemma pass_saturated supply_map demand_map demand_type cutoff_km od h row :
  row ∈ od →
  ¬ allocates supply_map demand_map cutoff_km
      (st_heap (greedy_allocate od supply_map demand_map demand_type cutoff_km h)) row.
Proof.
  intros (pre & post & ->)%list_elem_of_split.
  change (row :: post) with ([row] ++ post). rewrite app_assoc.
  rewrite greedy_allocate_app. simpl. rewrite greedy_allocate_snoc.
  set (st := greedy_allocate pre supply_map demand_map demand_type cutoff_km h).
  set (st' := loop_body supply_map demand_map demand_type cutoff_km st row).
  assert (s_left supply_map (st_heap st') row ≤ 0
          ∨ d_left demand_map (st_heap st') row ≤ 0
          ∨ beyond_cutoff cutoff_km (OD.distance_km row) = true) as Hdone.
  { unfold st'.
    destruct (decide (allocates supply_map demand_map cutoff_km (st_heap st) row))
      as [Ha|Hn].
    - rewrite loop_body_allocates by done. simpl.
      destruct (decremented_zero supply_map demand_map (st_heap st) row) as [Hz|Hz];
        simpl in Hz; unfold s_left, d_left; [left | right; left]; qc_arith.
    - rewrite loop_body_skip by done. unfold allocates in Hn.
      destruct (beyond_cutoff cutoff_km (OD.distance_km row)); [by right; right|].
      destruct (decide (s_left supply_map (st_heap st) row ≤ 0)); [by left|].
      right; left.
      destruct (decide (d_left demand_map (st_heap st) row ≤ 0)); [done|].
      exfalso. apply Hn. split; [done | split; qc_arith]. }
  intros (Hb & Hs & Hd).
  destruct (pass_bounds supply_map demand_map demand_type cutoff_km post (st_heap st')
              supply_map (OD.origin_id row)) as (Hs1 & _ & _).
  destruct (pass_bounds supply_map demand_map demand_type cutoff_km post (st_heap st')
              demand_map (OD.destination_id row)) as (Hd1 & _ & _).
  simpl in Hs1, Hd1. unfold s_left, d_left in *.
  destruct Hdone as [Hz | [Hz | Hz]]; [qc_arith | qc_arith | congruence].
Qed.

(** X2.  Industrial priority.  If after pass 1 industrial demand is left
    at the destination of a row of the table within the cutoff, then the
    origin of that row has no supply left, and the residential pass
    appends no line with that origin. *)
Theorem industrial_demand_comes_first od cutoff_km h row :
  let p := run_passes od cutoff_km h in
  row ∈ od →
  beyond_cutoff cutoff_km (OD.distance_km row) = false →
  0 < get (st_heap (pass_ind p) ind) (OD.destination_id row) 0 →
  get (st_heap (pass_ind p) supply) (OD.origin_id row) 0 ≤ 0
  ∧ ∀ rec, rec ∈ allocations (pass_res p) →
           Alloc.origin_id rec ≠ OD.origin_id row.
Proof.
  simpl. intros Hin Hb Hleft.
  set (p1 := greedy_allocate od supply ind "industrial" cutoff_km h) in *.
  assert (get (st_heap p1 supply) (OD.origin_id row) 0 ≤ 0) as Hs.
  { pose proof (pass_saturated supply ind "industrial" cutoff_km od h row Hin) as Hn.
    fold p1 in Hn.
    destruct (decide (get (st_heap p1 supply) (OD.origin_id row) 0 ≤ 0)) as [|Hs];
      [done|].
    exfalso. apply Hn. split; [done|]. unfold s_left, d_left. split; [qc_arith | done]. }
  split; [done|].
  intros rec (pre & row' & post & _ & (_ & Hs' & _) & ->)%allocations_trace Ho.
  simpl in Ho. unfold s_left in Hs'. rewrite Ho in Hs'.
  destruct (pass_bounds supply res "residential" cutoff_km pre (st_heap p1)
              supply (OD.origin_id row)) as (_ & _ & Hstay).
  simpl in Hstay. rewrite Hstay in Hs' by done. qc_arith.
Qed.

Lemma industrial_demand_comes_first_witness :
  let p := run_passes example_table (Some (Q2Qc 50)) example_heap2 in
  let row := OD.Row "A" "B" (Q2Qc 5) in
  (row ∈ example_table
   ∧ beyond_cutoff (Some (Q2Qc 50)) (OD.distance_km row) = false
   ∧ 0 < get (st_heap (pass_ind p) ind) (OD.destination_id row) 0)
  ∧ get (st_heap (pass_ind p) supply) (OD.origin_id row) 0 ≤ 0
  ∧ ∀ rec, rec ∈ allocations (pass_res p) → Alloc.origin_id rec ≠ OD.origin_id row.
Proof.
  assert (OD.Row "A" "B" (Q2Qc 5) ∈ example_table) as Hin by (unfold example_table; left).
  assert (beyond_cutoff (Some (Q2Qc 50)) (OD.distance_km (OD.Row "A" "B" (Q2Qc 5)))
          = false) as Hb by (vm_compute; reflexivity).
  assert (0 < get (st_heap (pass_ind (run_passes example_table (Some (Q2Qc 50))
                                        example_heap2)) ind)
                  (OD.destination_id (OD.Row "A" "B" (Q2Qc 5))) 0) as Hleft
    by (vm_compute; reflexivity).
  split; [by repeat split|].
  exact (industrial_demand_comes_first example_table (Some (Q2Qc 50)) example_heap2
           (OD.Row "A" "B" (Q2Qc 5)) Hin Hb Hleft).
Defined.

(** ** The keys of the dicts *)

(** A name with a positive entry is a key. *)
Lemma positive_is_key (m : dict) k : 0 < get m k 0 → k ∈ dom m.
Proof.
  intros Hpos. apply elem_of_dom. unfold get in Hpos.
  destruct (m !! k) as [v|]; [by eexists|]. simpl in Hpos. qc_arith.
Qed.

Lemma dom_insert_key (m : dict) k v : k ∈ dom m → dom (<[k := v]> m) = dom m.
Proof. intros Hk. apply dom_insert_lookup_L. by apply elem_of_dom. Qed.

Lemma decremented_dom supply_map demand_map cutoff_km h row r :
  allocates supply_map demand_map cutoff_km h row →
  dom (decremented supply_map demand_map h row r) = dom (h r).
Proof.
  intros (_ & Hs%positive_is_key & Hd%positive_is_key).
  assert (∀ r', dom (setitem h supply_map (OD.origin_id row)
                       (s_left supply_map h row - volume supply_map demand_map h row) r')
                = dom (h r')) as Hfirst.
  { intros r'. unfold setitem, heap_set. case_decide as Hr; [|done].
    subst r'. by apply dom_insert_key. }
  unfold decremented. simpl. unfold setitem at 1. unfold heap_set.
  case_decide as Hr; [|apply Hfirst]. subst r.
  rewrite dom_insert_key; [apply Hfirst|]. by rewrite Hfirst.
Qed.

Lemma pass_dom supply_map demand_map demand_type cutoff_km od h r :
  dom (st_heap (greedy_allocate od supply_map demand_map demand_type cutoff_km h) r)
  = dom (h r).
Proof.
  induction od as [|row od IH] using rev_ind; [done|].
  rewrite greedy_allocate_snoc.
  destruct (decide (allocates supply_map demand_map cutoff_km
    (st_heap (greedy_allocate od supply_map demand_map demand_type cutoff_km h)) row)).
  - rewrite loop_body_allocates by done. simpl.
    by erewrite decremented_dom.
  - by rewrite loop_body_skip.
Qed.

(** X3.  A pass adds no name to any dict and removes none; every line it
    appends has an origin that is a key of the supply dict and a
    destination that is a key of the demand dict. *)
Theorem pass_keeps_keys od supply_map demand_map demand_type cutoff_km h :
  let run := greedy_allocate od supply_map demand_map demand_type cutoff_km h in
  (∀ r, dom (st_heap run r) = dom (h r))
  ∧ ∀ rec, rec ∈ allocations run →
      Alloc.origin_id rec ∈ dom (h supply_map)
      ∧ Alloc.destination_id rec ∈ dom (h demand_map).
Proof.
  simpl. split; [intros r; apply pass_dom|].
  intros rec (pre & row & post & _ & (_ & Hs & Hd) & ->)%allocations_trace. simpl.
  apply positive_is_key in Hs, Hd. rewrite pass_dom in Hs, Hd. done.
Qed.

Lemma pass_keeps_keys_witness :
  let run := greedy_allocate example_od supply ind "industrial" (Some (Q2Qc 50))
               example_heap in
  example_record ∈ allocations run
  ∧ Alloc.origin_id example_record ∈ dom (example_heap supply)
  ∧ Alloc.destination_id example_record ∈ dom (example_heap ind).
Proof.
  assert (example_record ∈
    allocations (greedy_allocate example_od supply ind "industrial"
                   (Some (Q2Qc 50)) example_heap)) as Hin.
  { vm_compute. left. }
  split; [exact Hin|].
  destruct (pass_keeps_keys example_od supply ind "industrial" (Some (Q2Qc 50))
              example_heap) as (_ & Hkeys).
  exact (Hkeys example_record Hin).
Defined.

(** X9.  Rows with a name that is no key of its dict can be dropped from
    the table beforehand: the pass over the rows whose origin is a key of
    the supply dict and whose destination is a key of the demand dict is
    the pass over the whole table. *)
Theorem unknown_names_can_be_dropped od supply_map demand_map demand_type cutoff_km h :
  greedy_allocate (filter (known supply_map demand_map h) od)
    supply_map demand_map demand_type cutoff_km h
  = greedy_allocate od supply_map demand_map demand_type cutoff_km h.
Proof.
  induction od as [|row od IH] using rev_ind; [done|].
  rewrite filter_app, filter_cons, filter_nil.
  rewrite (greedy_allocate_snoc _ _ _ _ od).
  case_decide as Hk.
  - by rewrite greedy_allocate_snoc, IH.
  - rewrite app_nil_r, IH. symmetry. apply loop_body_skip.
    intros (_ & Hs%positive_is_key & Hd%positive_is_key).
    rewrite pass_dom in Hs, Hd. apply Hk. by split.
Qed.

(** ** The records follow the table *)

Lemma row_of_emitted supply_map demand_map demand_type h row :
  row_of (emitted supply_map demand_map demand_type h row) = row.
Proof. by destruct row. Qed.

Lemma pass_rows_sublist od supply_map demand_map demand_type cutoff_km h :
  row_of <$> allocations (greedy_allocate od supply_map demand_map demand_type
                            cutoff_km h) `sublist_of` od.
Proof.
  induction od as [|row od IH] using rev_ind; [done|].
  rewrite greedy_allocate_snoc.
  destruct (decide (allocates supply_map demand_map cutoff_km
    (st_heap (greedy_allocate od supply_map demand_map demand_type cutoff_km h)) row)).
  - rewrite loop_body_allocates by done. simpl.
    rewrite fmap_app. simpl. rewrite row_of_emitted. by apply sublist_app.
  - rewrite loop_body_skip by done. by apply sublist_inserts_r.
Qed.

(** X4.  The lines of a pass, read as pairs with their distance, are rows
    of the table in table order: the pass never reorders, repeats or
    invents a pair, and appends at most one line per row. *)
Theorem records_follow_table od supply_map demand_map demand_type cutoff_km h :
  let run := greedy_allocate od supply_map demand_map demand_type cutoff_km h in
  row_of <$> allocations run `sublist_of` od
  ∧ (length (allocations run) ≤ length od)%nat.
Proof.
  simpl.
  pose proof (pass_rows_sublist od supply_map demand_map demand_type cutoff_km h)
    as Hsub.
  split; [done|]. apply sublist_length in Hsub. by rewrite length_fmap in Hsub.
Qed.

(** ** What a pass reads *)

Lemma decremented_ext supply_map demand_map h1 h2 row :
  h1 supply_map = h2 supply_map → h1 demand_map = h2 demand_map →
  decremented supply_map demand_map h1 row supply_map
    = decremented supply_map demand_map h2 row supply_map
  ∧ decremented supply_map demand_map h1 row demand_map
    = decremented supply_map demand_map h2 row demand_map.
Proof.
  intros Hs Hd.
  unfold decremented, volume, s_left, d_left, setitem, heap_set.
  rewrite !Hs, !Hd. done.
Qed.

(** X6.  A pass reads nothing but the two dicts it is given: in two heaps
    that hold the same supply dict and the same demand dict it appends the
    same lines, returns the same total and leaves the same two dicts. *)
Theorem pass_reads_its_dicts_only
    od supply_map demand_map demand_type cutoff_km h1 h2 :
  h1 supply_map = h2 supply_map →
  h1 demand_map = h2 demand_map →
  let run1 := greedy_allocate od supply_map demand_map demand_type cutoff_km h1 in
  let run2 := greedy_allocate od supply_map demand_map demand_type cutoff_km h2 in
  allocations run1 = allocations run2
  ∧ total_weighted_cost run1 = total_weighted_cost run2
  ∧ st_heap run1 supply_map = st_heap run2 supply_map
  ∧ st_heap run1 demand_map = st_heap run2 demand_map.
Proof.
  intros Hs Hd. simpl.
  induction od as [|row od IH] using rev_ind; [done|].
  rewrite !greedy_allocate_snoc.
  destruct IH as (IHa & IHt & IHs & IHd).
  set (st1 := greedy_allocate od supply_map demand_map demand_type cutoff_km h1) in *.
  set (st2 := greedy_allocate od supply_map demand_map demand_type cutoff_km h2) in *.
  assert (allocates supply_map demand_map cutoff_km (st_heap st1) row
          ↔ allocates supply_map demand_map cutoff_km (st_heap st2) row) as Hiff.
  { unfold allocates, s_left, d_left. by rewrite IHs, IHd. }
  destruct (decide (allocates supply_map demand_map cutoff_km (st_heap st1) row))
    as [Ha|Hn].
  - rewrite !loop_body_allocates by (done || by apply Hiff). simpl.
    destruct (decremented_ext supply_map demand_map (st_heap st1) (st_heap st2) row
                IHs IHd) as (Es & Ed).
    assert (emitted supply_map demand_map demand_type (st_heap st1) row
            = emitted supply_map demand_map demand_type (st_heap st2) row) as Ee.
    { unfold emitted, volume, s_left, d_left. by rewrite IHs, IHd. }
    assert (volume supply_map demand_map (st_heap st1) row
            = volume supply_map demand_map (st_heap st2) row) as Ev.
    { unfold volume, s_left, d_left. by rewrite IHs, IHd. }
    rewrite Ee, Ev, IHa, IHt. by split; [|split; [|split]].
  - rewrite !loop_body_skip by (done || by rewrite <- Hiff). done.
Qed.

Lemma pass_reads_its_dicts_only_witness :
  let h2 := heap_set example_heap res ∅ in
  (example_heap supply = h2 supply ∧ example_heap ind = h2 ind)
  ∧ allocations (greedy_allocate example_od supply ind "industrial" (Some (Q2Qc 50))
                   example_heap)
    = allocations (greedy_allocate example_od supply ind "industrial" (Some (Q2Qc 50))
                     h2).
Proof.
  assert (example_heap supply = heap_set example_heap res ∅ supply) as Hs
    by reflexivity.
  assert (example_heap ind = heap_set example_heap res ∅ ind) as Hd by reflexivity.
  split; [by split|].
  destruct (pass_reads_its_dicts_only example_od supply ind "industrial"
              (Some (Q2Qc 50)) example_heap (heap_set example_heap res ∅) Hs Hd)
    as (Ha & _).
  exact Ha.
Defined.

(** ** Nothing to allocate, and cutoffs that cut nothing *)



(** X8.  A cutoff that no distance of the table exceeds is no cutoff: the
    pass is the pass run without one. *)
Theorem cutoff_beyond_all_distances od supply_map demand_map demand_type c h :
  (∀ row, row ∈ od → OD.distance_km row ≤ c) →
  greedy_allocate od supply_map demand_map demand_type (Some c) h
  = greedy_allocate od supply_map demand_map demand_type None h.
Proof.
  intros Hall. unfold greedy_allocate, greedy_loop.
  generalize {| st_heap := h; allocations := []; total_weighted_cost := 0 |}.
  induction od as [|row od IH]; intros st; [done|]. simpl.
  rewrite IH by (intros row' Hin; apply Hall; by right). f_equal.
  unfold loop_body. simpl. rewrite bool_decide_eq_false_2; [done|].
  specialize (Hall row (list_elem_of_here _ _)). qc_arith.
Qed.

Lemma cutoff_beyond_all_distances_witness :
  (∀ row, row ∈ example_table → OD.distance_km row ≤ Q2Qc 9)
  ∧ greedy_allocate example_table supply ind "industrial" (Some (Q2Qc 9)) example_heap2
    = greedy_allocate example_table supply ind "industrial" None example_heap2.
Proof.
  assert (∀ row, row ∈ example_table → OD.distance_km row ≤ Q2Qc 9) as Hall.
  { intros row Hin. unfold example_table in Hin.
    repeat (apply elem_of_cons in Hin as [-> | Hin]; [vm_compute; discriminate|]).
    by apply elem_of_nil in Hin. }
  split; [exact Hall|].
  exact (cutoff_beyond_all_distances example_table supply ind "industrial" (Q2Qc 9)
           example_heap2 Hall).
Defined.

(** * Further properties of the loaders *)

(** ** Renaming the headers *)

(** The comprehension that keeps the entries of the mapper whose key is a
    header changes nothing. *)
Lemma rename_present_keys (mapper : gmap string string) csv :
  rename (filter (λ kv, kv.1 ∈ columns csv) mapper) csv = rename mapper csv.
Proof.
  unfold rename. f_equal. apply Forall_fmap_ext, Forall_forall. intros c Hc.
  destruct (mapper !! c) as [v|] eqn:Hm.
  - by rewrite (map_lookup_filter_Some_2 _ _ _ v).
  - by rewrite map_lookup_filter_None_2 by (by left).
Qed.

Lemma rename_map_settled : settled rename_map.
Proof. apply (bool_decide_unpack _). by vm_compute. Qed.

Lemma od_rename_map_settled : settled od_rename_map.
Proof. apply (bool_decide_unpack _). by vm_compute. Qed.

Lemma rename_settled mapper df :
  settled mapper → rename mapper (rename mapper df) = rename mapper df.
Proof.
  intros Hset. unfold rename. simpl. f_equal.
  rewrite <- list_fmap_compose. apply Forall_fmap_ext, Forall_forall.
  intros c _. simpl. destruct (mapper !! c) as [v|] eqn:Hc; simpl.
  - by rewrite (map_Forall_lookup_1 _ _ _ _ Hset Hc).
  - by rewrite Hc.
Qed.

(** X13.  Header normalisation.  Keeping only the mapper entries whose key
    is a header, as [load_demand_supply] does, renames exactly as the whole
    mapper does; a header that is no key of the mapper stays; and renaming
    a renamed table changes nothing, for both mappers of the script. *)
Theorem rename_is_stable (mapper : gmap string string) csv :
  rename (filter (λ kv, kv.1 ∈ columns csv) mapper) csv = rename mapper csv
  ∧ rows (rename mapper csv) = rows csv
  ∧ length (columns (rename mapper csv)) = length (columns csv)
  ∧ (∀ c, c ∈ columns csv → mapper !! c = None → c ∈ columns (rename mapper csv))
  ∧ rename rename_map (rename rename_map csv) = rename rename_map csv
  ∧ rename od_rename_map (rename od_rename_map csv) = rename od_rename_map csv.
Proof.
  split; [apply rename_present_keys|]. split; [done|].
  split; [unfold rename; simpl; by rewrite length_fmap|].
  split.
  - intros c Hc Hm. unfold rename. simpl. apply list_elem_of_fmap.
    exists c. by rewrite Hm.
  - split; apply rename_settled; [apply rename_map_settled | apply od_rename_map_settled].
Qed.

Lemma rename_is_stable_witness :
  ("SUPPLY" ∈ columns example_demand_supply_csv ∧ rename_map !! "SUPPLY" = None)
  ∧ "SUPPLY" ∈ columns (rename rename_map example_demand_supply_csv).
Proof.
  assert ("SUPPLY" ∈ columns example_demand_supply_csv) as Hc
    by (apply (bool_decide_unpack _); vm_compute; exact I).
  assert (rename_map !! "SUPPLY" = None) as Hm by (vm_compute; reflexivity).
  split; [by split|].
  destruct (rename_is_stable rename_map example_demand_supply_csv)
    as (_ & _ & _ & Hstay & _).
  exact (Hstay "SUPPLY" Hc Hm).
Defined.

(** ** The lookup dicts *)

Lemma to_dict_snoc col df r :
  to_dict col (df ++ [r]) = <[DS.NAME r := col r]> (to_dict col df).
Proof. unfold to_dict. by rewrite fold_left_app. Qed.

(** X17.  The dict built from a column holds, for a name, the value in
    the last row of the table with that name, and holds nothing for a name
    that is in no row; its keys are the names of the table. *)
Theorem to_dict_lookup col df x :
  to_dict col df !! x = col <$> last (filter (λ r, DS.NAME r = x) df)
  ∧ (x ∈ dom (to_dict col df) ↔ x ∈ DS.NAME <$> df).
Proof.
  assert (to_dict col df !! x = col <$> last (filter (λ r, DS.NAME r = x) df)) as Hl.
  { induction df as [|r df IH] using rev_ind; [done|].
    rewrite to_dict_snoc, filter_app, filter_cons, filter_nil.
    case_decide as Hx.
    - subst x. by rewrite lookup_insert_eq, last_snoc.
    - by rewrite lookup_insert_ne, app_nil_r. }
  split; [done|].
  rewrite elem_of_dom, Hl, list_elem_of_fmap. split.
  - intros [v Hv]. destruct (last _) as [r|] eqn:Hlast; [|done].
    apply last_Some_elem_of, list_elem_of_filter in Hlast as [Hname Hin].
    by exists r.
  - intros (r & -> & Hin).
    assert (r ∈ filter (λ r', DS.NAME r' = DS.NAME r) df) as Hf
      by (by apply list_elem_of_filter).
    destruct (last (filter (λ r', DS.NAME r' = DS.NAME r) df)) as [r'|] eqn:Hlast;
      [by eexists|].
    apply last_None in Hlast. rewrite Hlast in Hf. by apply elem_of_nil in Hf.
Qed.

Lemma to_dict_lookup_witness :
  "A" ∈ DS.NAME <$> example_twice
  ∧ "A" ∈ dom (to_dict DS.SUPPLY example_twice)
  ∧ to_dict DS.SUPPLY example_twice !! "A" = Some (Q2Qc 7).
Proof.
  assert ("A" ∈ DS.NAME <$> example_twice) as Hin
    by (apply (bool_decide_unpack _); vm_compute; exact I).
  split; [exact Hin|].
  destruct (to_dict_lookup DS.SUPPLY example_twice "A") as (Hl & Hdom).
  split; [exact (proj2 Hdom Hin)|]. rewrite Hl. vm_compute. reflexivity.
Defined.

(** ** The order of the distance table *)

(** X22.  The order [load_od] gives the table is the only one a stable
    ascending sort can give: an ascending arrangement that keeps, at every
    distance, the rows in their order in the table is [sort_values] of the
    table. *)
Theorem stable_ascending_order_is_unique l l' :
  ascending l' →
  (∀ k, at_distance k l' = at_distance k l) →
  l' = sort_values l.
Proof.
  intros Hasc Hkeep. apply ascending_stable_unique;
    [done | apply sort_values_ascending |].
  intros k. by rewrite sort_values_at_distance.
Qed.

Lemma stable_ascending_order_is_unique_witness :
  let l := [OD.Row "A" "B" (Q2Qc 5); OD.Row "A" "C" (Q2Qc 3); OD.Row "B" "C" (Q2Qc 5)] in
  let l' := [OD.Row "A" "C" (Q2Qc 3); OD.Row "A" "B" (Q2Qc 5); OD.Row "B" "C" (Q2Qc 5)] in
  (ascending l' ∧ ∀ k, at_distance k l' = at_distance k l)
  ∧ l' = sort_values l.
Proof.
  assert (ascending [OD.Row "A" "C" (Q2Qc 3); OD.Row "A" "B" (Q2Qc 5);
                     OD.Row "B" "C" (Q2Qc 5)]) as Hasc.
  { repeat constructor; vm_compute; discriminate. }
  assert (∀ k, at_distance k [OD.Row "A" "C" (Q2Qc 3); OD.Row "A" "B" (Q2Qc 5);
                              OD.Row "B" "C" (Q2Qc 5)]
               = at_distance k [OD.Row "A" "B" (Q2Qc 5); OD.Row "A" "C" (Q2Qc 3);
                                OD.Row "B" "C" (Q2Qc 5)]) as Hkeep.
  { intros k. unfold at_distance. rewrite !filter_cons, !filter_nil. simpl.
    repeat case_decide; try done; exfalso;
      match goal with
      | H1 : Q2Qc 3 = k, H2 : Q2Qc 5 = k |- _ => rewrite <- H1 in H2; discriminate H2
      end. }
  split; [by split|].
  exact (stable_ascending_order_is_unique _ _ Hasc Hkeep).
Defined.

(** * Properties of the allocator on binary64 numbers *)

(** ** The specification of binary64 *)

Lemma SFcompare_refl X : X ≠ S754_nan → SFcompare X X = Some Eq.
Proof.
  destruct X as [s|s| |s m e]; intros Hn; try done; simpl.
  - by destruct s.
  - destruct s; rewrite Z.compare_refl, Pos.compare_cont_refl; done.
Qed.

Lemma SFcompare_antisym X Y :
  SFcompare Y X = CompOpp <$> SFcompare X Y.
Proof.
  destruct X as [s|s| |s m e], Y as [s'|s'| |s' m' e']; simpl; try done;
    try (by destruct s); try (by destruct s'); try (by destruct s, s').
  destruct s, s'; simpl; try done; f_equal;
    rewrite (Z.compare_antisym e e');
    destruct (e ?= e')%Z; simpl; try done;
    rewrite (Pos.compare_cont_antisym m m' Eq); simpl;
    by destruct (Pos.compare_cont Eq m m').
Qed.

(** Rounding a number with a positive sign gives no negative number. *)
Lemma binary_round_aux_not_negative m e l :
  not_negative (binary_round_aux prec emax false m e l).
Proof.
  unfold binary_round_aux.
  destruct (shr_fexp _ _ _ _ _) as [mrs' e'].
  destruct (shr_fexp _ _ _ _ _) as [mrs'' e''].
  destruct (shr_m mrs''); try done. by destruct (_ <=? _)%Z.
Qed.

Lemma binary_round_not_negative m e :
  not_negative (binary_round prec emax false m e).
Proof.
  unfold binary_round. destruct (shl_align _ _ _) as [mz ez].
  apply binary_round_aux_not_negative.
Qed.

Lemma binary_normalize_not_negative m e :
  (0 ≤ m)%Z → not_negative (binary_normalize prec emax m e false).
Proof.
  destruct m; intros Hm; simpl; [done | apply binary_round_not_negative | lia].
Qed.

Lemma digits2_pos_size m : digits2_pos m = Pos.size m.
Proof. induction m; simpl; by rewrite ?IHm. Qed.

Lemma iter_xO_ge m d : (m~0 ≤ Pos.iter xO m d)%positive.
Proof.
  induction d as [|d IH] using Pos.peano_ind; simpl; [lia|].
  rewrite Pos.iter_succ. lia.
Qed.

(** Of two valid positive finite numbers, the one with the larger exponent
    has the larger mantissa once both are aligned on the smaller
    exponent. *)
Lemma aligned_ge ma ea mb eb :
  bounded prec emax ma ea = true → bounded prec emax mb eb = true →
  (eb < ea)%Z →
  (Zpos mb ≤ Zpos (fst (shl_align ma ea eb)))%Z.
Proof.
  unfold bounded, canonical_mantissa, fexp, emin.
  rewrite !andb_true_iff, !Z.eqb_eq.
  intros [Ha _] [Hb _] Hlt. rewrite digits2_pos_size in Ha, Hb.
  unfold prec, emax in *.
  assert (Z.pos (Pos.size ma) = 53 ∧ Z.pos (Pos.size mb) ≤ 53)%Z as [Hsa Hsb].
  { destruct (Z.max_spec (Z.pos (Pos.size ma) + ea - 53) (3 - 1024 - 53))
      as [[? ?]|[? ?]],
      (Z.max_spec (Z.pos (Pos.size mb) + eb - 53) (3 - 1024 - 53))
      as [[? ?]|[? ?]]; lia. }
  apply Pos2Z.inj in Hsa.
  unfold shl_align. destruct (eb - ea)%Z as [|d|d] eqn:Hd; try lia. simpl.
  pose proof (iter_xO_ge ma d) as Hiter.
  assert (Z.pos mb < 2 ^ 53)%Z as Hb53.
  { apply Z.lt_le_trans with (2 ^ Z.pos (Pos.size mb))%Z.
    - change 2%Z with (Z.pos 2). rewrite <- Pos2Z.inj_pow.
      apply Pos2Z.pos_lt_pos, Pos.size_gt.
    - apply Z.pow_le_mono_r; lia. }
  assert (2 ^ 53 ≤ Z.pos ma~0)%Z as Ha53.
  { pose proof (Pos.size_le ma) as Hle. rewrite Hsa in Hle.
    apply Pos2Z.pos_le_pos in Hle. by rewrite Pos2Z.inj_pow in Hle. }
  clear Ha Hb. lia.
Qed.

(** Subtracting from a positive finite number one that is not larger
    gives no negative number. *)
Lemma SFsub_finite_not_negative ma ea mb eb :
  bounded prec emax ma ea = true → bounded prec emax mb eb = true →
  SFcompare (S754_finite false ma ea) (S754_finite false mb eb) ≠ Some Lt →
  not_negative (SF64sub (S754_finite false ma ea) (S754_finite false mb eb)).
Proof.
  intros Va Vb Hcmp. unfold SF64sub, SFsub. apply binary_normalize_not_negative.
  simpl in *.
  destruct (Z.compare_spec ea eb) as [->|Hlt|Hgt].
  - rewrite Z.min_id. unfold shl_align. rewrite Z.sub_diag. simpl.
    change (Pos.compare_cont Eq ma mb) with (ma ?= mb)%positive in Hcmp.
    destruct (Pos.compare_spec ma mb); [lia | done | lia].
  - done.
  - rewrite Z.min_r by lia.
    pose proof (aligned_ge ma ea mb eb Va Vb Hgt) as Hge.
    unfold shl_align at 2. rewrite Z.sub_diag. simpl. lia.
Qed.

(** A finite number less itself is +0. *)
Lemma SFsub_diag X :
  match X with S754_nan | S754_infinity _ => False | _ => True end →
  SF64sub X X = S754_zero false.
Proof.
  destruct X as [s|s| |s m e]; try done; intros _.
  - by destruct s.
  - unfold SF64sub, SFsub. rewrite Z.min_id. unfold shl_align.
    rewrite !Z.sub_diag. done.
Qed.

(** Of two numbers that are not [<= 0], take the first if it is below the
    second, else the second: subtracting it from either gives no negative
    number. *)
Lemma SFsub_min_not_negative X Y :
  valid_binary X = true → valid_binary Y = true →
  SFleb X (S754_zero false) = false → SFleb Y (S754_zero false) = false →
  let A := if SFltb X Y then X else Y in
  not_negative (SF64sub X A) ∧ not_negative (SF64sub Y A).
Proof.
  intros VX VY HX HY. cbv zeta.
  assert (∀ Z, SFleb Z (S754_zero false) = false →
    Z = S754_nan ∨ Z = S754_infinity false ∨ ∃ m e, Z = S754_finite false m e) as Hpos.
  { intros [s|s| |s m e] HZ; try destruct s; try done; eauto. }
  destruct (Hpos X HX) as [-> | [-> | (m & e & ->)]],
           (Hpos Y HY) as [-> | [-> | (m' & e' & ->)]];
    try (by split; first [done | by rewrite SFsub_diag]).
  simpl in VX, VY.
  destruct (SFltb (S754_finite false m e) (S754_finite false m' e')) eqn:Hlt.
  - split; [by rewrite SFsub_diag|].
    apply SFsub_finite_not_negative; try done.
    rewrite SFcompare_antisym. unfold SFltb in Hlt.
    destruct (SFcompare (S754_finite false m e) (S754_finite false m' e'))
      as [[]|]; done.
  - split; [|by rewrite SFsub_diag].
    apply SFsub_finite_not_negative; try done.
    unfold SFltb in Hlt.
    destruct (SFcompare (S754_finite false m e) (S754_finite false m' e'))
      as [[]|]; done.
Qed.

(** The product and the sum of two numbers that are not negative are not
    negative. *)
Lemma SFmul_not_negative X Y :
  not_negative X → not_negative Y → not_negative (SF64mul X Y).
Proof.
  destruct X as [s|s| |s m e], Y as [s'|s'| |s' m' e'];
    try destruct s; try destruct s'; try done.
  intros _ _. apply binary_round_aux_not_negative.
Qed.

Lemma SFadd_not_negative X Y :
  not_negative X → not_negative Y → not_negative (SF64add X Y).
Proof.
  destruct X as [s|s| |s m e], Y as [s'|s'| |s' m' e'];
    try destruct s; try destruct s'; try done.
  intros _ _. unfold SF64add, SFadd. apply binary_normalize_not_negative.
  simpl. lia.
Qed.

(** ** The binary64 numbers of the kernel *)

Local Open Scope float_scope.

Lemma Prim2SF_zero : Prim2SF 0 = S754_zero false.
Proof. reflexivity. Qed.

Lemma Prim2SF_infinity : Prim2SF infinity = S754_infinity false.
Proof. reflexivity. Qed.

Lemma is_nan_spec x : is_nan x = false ↔ Prim2SF x ≠ S754_nan.
Proof.
  unfold is_nan. rewrite FloatAxioms.eqb_spec. unfold SFeqb. split.
  - intros Hx Hn. rewrite Hn in Hx. done.
  - intros Hn. by rewrite SFcompare_refl.
Qed.

Lemma is_finite_spec x :
  is_finite x = true →
  match Prim2SF x with S754_nan | S754_infinity _ => False | _ => True end.
Proof.
  unfold is_finite, is_infinity, is_nan.
  rewrite !FloatAxioms.eqb_spec, abs_spec, Prim2SF_infinity.
  destruct (Prim2SF x) as [s|s| |s m e]; simpl; try done; destruct s; done.
Qed.

(** [x - x] is [0.0] for a finite [x]. *)
Lemma sub_diag x : is_finite x = true → x - x = 0.
Proof.
  intros Hfin%is_finite_spec. apply Prim2SF_inj.
  rewrite sub_spec, Prim2SF_zero. by apply SFsub_diag.
Qed.

Lemma ltb_irrefl x : (x <? x) = false.
Proof.
  rewrite ltb_spec. unfold SFltb.
  destruct (Prim2SF x) as [s|s| |s m e] eqn:Hx; [| |done|];
    by rewrite SFcompare_refl.
Qed.


(** What [s_left - alloc] and [d_left - alloc] can be. *)
Lemma sub_min_not_negative x y :
  (x <=? 0) = false → (y <=? 0) = false →
  let a := if x <? y then x else y in
  ((x - a) <? 0) = false ∧ ((y - a) <? 0) = false.
Proof.
  rewrite !leb_spec, Prim2SF_zero. intros Hx Hy. cbv zeta.
  rewrite !ltb_spec, !sub_spec, Prim2SF_zero.
  pose proof (SFsub_min_not_negative (Prim2SF x) (Prim2SF y)
                (Prim2SF_valid x) (Prim2SF_valid y) Hx Hy) as Hsub.
  cbv zeta in Hsub. unfold not_negative in Hsub.
  by destruct (SFltb (Prim2SF x) (Prim2SF y)).
Qed.


(** The product and the sum of two numbers that are not negative are not
    negative. *)
Lemma mul_not_negative x y :
  (x <? 0) = false → (y <? 0) = false → (x * y <? 0) = false.
Proof.
  rewrite !ltb_spec, mul_spec, Prim2SF_zero. apply SFmul_not_negative.
Qed.

Lemma add_not_negative x y :
  (x <? 0) = false → (y <? 0) = false → (x + y <? 0) = false.
Proof.
  rewrite !ltb_spec, add_spec, Prim2SF_zero. apply SFadd_not_negative.
Qed.

Lemma leb_false_ltb_false x : (x <=? 0) = false → (x <? 0) = false.
Proof.
  rewrite leb_spec, ltb_spec. unfold SFleb, SFltb.
  by destruct (SFcompare _ _) as [[]|].
Qed.

Lemma ltb_false_le x : (x <? 0) = false → is_nan x = false → (0 <=? x) = true.
Proof.
  rewrite leb_spec, ltb_spec, Prim2SF_zero, is_nan_spec.
  destruct (Prim2SF x) as [s|s| |s m e]; simpl; try done;
    destruct s; done.
Qed.

Lemma nan_not_zero : nan ≠ 0.
Proof. intros H. apply (f_equal is_nan) in H. vm_compute in H. done. Qed.

(** ** The heap and [get], on binary64 *)

Lemma f64_heap_set_eq (h : F64.heap) r m : F64.heap_set h r m r = m.
Proof. unfold F64.heap_set. by rewrite decide_True. Qed.

Lemma f64_heap_set_ne (h : F64.heap) r r' m :
  r' ≠ r → F64.heap_set h r m r' = h r'.
Proof. intros. unfold F64.heap_set. by rewrite decide_False. Qed.

Lemma f64_setitem_lookup_eq (h : F64.heap) r k v :
  F64.setitem h r k v r !! k = Some v.
Proof. unfold F64.setitem. by rewrite f64_heap_set_eq, lookup_insert_eq. Qed.

Lemma f64_setitem_lookup_ne (h : F64.heap) r k v r' k' :
  r' ≠ r ∨ k' ≠ k → F64.setitem h r k v r' !! k' = h r' !! k'.
Proof.
  unfold F64.setitem. intros Hne.
  destruct (decide (r' = r)) as [->|Hr].
  - rewrite f64_heap_set_eq. destruct Hne as [|Hk]; [done|].
    by rewrite lookup_insert_ne.
  - by rewrite f64_heap_set_ne.
Qed.

Lemma f64_setitem_other (h : F64.heap) r k v r' :
  r' ≠ r → F64.setitem h r k v r' = h r'.
Proof. intros. unfold F64.setitem. by rewrite f64_heap_set_ne. Qed.

Lemma f64_get_lookup (m m' : F64.dict) k d :
  m !! k = m' !! k → F64.get m k d = F64.get m' k d.
Proof. unfold F64.get. by intros ->. Qed.

(** ** One iteration, on binary64 *)

Lemma f64_loop_body_skip sref dref dtype cutoff st row :
  ¬ F64.allocates sref dref cutoff (F64.st_heap st) row →
  F64.loop_body sref dref dtype cutoff st row = st.
Proof.
  unfold F64.allocates, F64.loop_body, F64.s_left, F64.d_left. intros Hn.
  destruct (F64.beyond_cutoff cutoff (F64.OD.distance_km row)); [done|].
  destruct (F64.get (F64.st_heap st sref) (F64.OD.origin_id row) 0 <=? 0);
    [done|].
  destruct (F64.get (F64.st_heap st dref) (F64.OD.destination_id row) 0 <=? 0);
    [done|].
  by destruct Hn.
Qed.

(** The volume is one of the two numbers read, so the third guard never
    fires once the second has not. *)
Lemma f64_volume_not_le sref dref h row :
  (F64.s_left sref h row <=? 0) = false →
  (F64.d_left dref h row <=? 0) = false →
  (F64.volume sref dref h row <=? 0) = false.
Proof. unfold F64.volume. by destruct (_ <? _). Qed.

Lemma f64_loop_body_allocates sref dref dtype cutoff st row :
  F64.allocates sref dref cutoff (F64.st_heap st) row →
  F64.loop_body sref dref dtype cutoff st row
  = {| F64.st_heap := F64.decremented sref dref (F64.st_heap st) row;
       F64.allocations :=
         F64.allocations st ++ [F64.emitted sref dref dtype (F64.st_heap st) row];
       F64.total_weighted_cost :=
         F64.total_weighted_cost st
         + F64.Alloc.weighted_cost
             (F64.emitted sref dref dtype (F64.st_heap st) row) |}.
Proof.
  intros (Hc & Hs & Hd).
  pose proof (f64_volume_not_le sref dref _ row Hs Hd) as Hv.
  unfold F64.loop_body, F64.emitted.
  fold (F64.s_left sref (F64.st_heap st) row).
  fold (F64.d_left dref (F64.st_heap st) row).
  rewrite Hc, Hs, Hd. simpl.
  fold (F64.volume sref dref (F64.st_heap st) row).
  rewrite Hv. done.
Qed.

(** What an allocating iteration leaves in the two entries it writes, and
    in all others. *)
Lemma f64_decremented_demand sref dref h row :
  F64.decremented sref dref h row dref !! F64.OD.destination_id row
  = Some (F64.d_left dref h row - F64.volume sref dref h row).
Proof. unfold F64.decremented. by rewrite f64_setitem_lookup_eq. Qed.

Lemma f64_decremented_supply sref dref h row :
  sref ≠ dref ∨ F64.OD.origin_id row ≠ F64.OD.destination_id row →
  F64.decremented sref dref h row sref !! F64.OD.origin_id row
  = Some (F64.s_left sref h row - F64.volume sref dref h row).
Proof.
  intros Hne. unfold F64.decremented.
  rewrite f64_setitem_lookup_ne by done. by rewrite f64_setitem_lookup_eq.
Qed.

Lemma f64_decremented_other sref dref h row r k :
  r ≠ sref ∨ k ≠ F64.OD.origin_id row →
  r ≠ dref ∨ k ≠ F64.OD.destination_id row →
  F64.decremented sref dref h row r !! k = h r !! k.
Proof.
  intros Hs Hd. unfold F64.decremented.
  by rewrite !f64_setitem_lookup_ne.
Qed.

Lemma f64_decremented_frame sref dref h row r :
  r ≠ sref → r ≠ dref → F64.decremented sref dref h row r = h r.
Proof.
  intros Hs Hd. unfold F64.decremented. by rewrite !f64_setitem_other.
Qed.

(** An iteration writes no entry that is [<= 0]. *)
Lemma f64_decremented_untouched sref dref cutoff h row r k :
  F64.allocates sref dref cutoff h row →
  (F64.get (h r) k 0 <=? 0) = true →
  F64.decremented sref dref h row r !! k = h r !! k.
Proof.
  intros (_ & Hs & Hd) Hle. apply f64_decremented_other.
  - destruct (decide (r = sref)) as [->|]; [|by left].
    destruct (decide (k = F64.OD.origin_id row)) as [->|]; [|by right].
    unfold F64.s_left in Hs. congruence.
  - destruct (decide (r = dref)) as [->|]; [|by left].
    destruct (decide (k = F64.OD.destination_id row)) as [->|]; [|by right].
    unfold F64.d_left in Hd. congruence.
Qed.

(** An iteration makes no entry negative. *)
Lemma f64_decremented_not_negative sref dref cutoff h row r k :
  F64.allocates sref dref cutoff h row →
  (F64.get (h r) k 0 <? 0) = false →
  (F64.get (F64.decremented sref dref h row r) k 0 <? 0) = false.
Proof.
  intros (_ & Hs & Hd) Hk.
  destruct (sub_min_not_negative _ _ Hs Hd) as [Hs' Hd'].
  fold (F64.volume sref dref h row) in Hs', Hd'.
  destruct (decide (r = dref ∧ k = F64.OD.destination_id row)) as [[-> ->]|Hnd].
  { unfold F64.get at 1. by rewrite f64_decremented_demand. }
  destruct (decide (r = sref ∧ k = F64.OD.origin_id row)) as [[-> ->]|Hns].
  { unfold F64.get at 1. rewrite f64_decremented_supply; [done|].
    destruct (decide (sref = dref)) as [->|]; [|by left].
    right. intros Heq. apply Hnd. by rewrite Heq. }
  erewrite f64_get_lookup; [exact Hk|].
  apply f64_decremented_other.
  - destruct (decide (r = sref)) as [->|]; [|by left].
    right. intros ->. by apply Hns.
  - destruct (decide (r = dref)) as [->|]; [|by left].
    right. intros ->. by apply Hnd.
Qed.

(** An iteration that moves a finite volume leaves [0.0] at the origin or
    at the destination. *)
Lemma f64_decremented_zero sref dref cutoff h row :
  F64.allocates sref dref cutoff h row →
  is_finite (F64.volume sref dref h row) = true →
  F64.get (F64.decremented sref dref h row sref) (F64.OD.origin_id row) 0 = 0
  ∨ F64.get (F64.decremented sref dref h row dref) (F64.OD.destination_id row) 0 = 0.
Proof.
  intros _ Hfin.
  destruct (decide (sref = dref ∧ F64.OD.origin_id row = F64.OD.destination_id row))
    as [[Hr Hk]|Hne].
  - right. unfold F64.get at 1. rewrite f64_decremented_demand. simpl.
    unfold F64.volume in *. unfold F64.s_left, F64.d_left in *.
    rewrite Hr, Hk in *. rewrite ltb_irrefl in *. by apply sub_diag.
  - assert (sref ≠ dref ∨ F64.OD.origin_id row ≠ F64.OD.destination_id row) as Hne'.
    { destruct (decide (sref = dref)) as [->|]; [|by left].
      right. intros Heq. by apply Hne. }
    unfold F64.get. rewrite f64_decremented_demand, f64_decremented_supply by done.
    simpl. unfold F64.volume in *.
    destruct (F64.s_left sref h row <? F64.d_left dref h row).
    + left. by apply sub_diag.
    + right. by apply sub_diag.
Qed.

(** ** The loop, on binary64 *)

Lemma f64_greedy_loop_snoc sref dref dtype cutoff od row st :
  F64.greedy_loop sref dref dtype cutoff (od ++ [row]) st
  = F64.loop_body sref dref dtype cutoff
      (F64.greedy_loop sref dref dtype cutoff od st) row.
Proof. unfold F64.greedy_loop. by rewrite fold_left_app. Qed.

Lemma f64_greedy_loop_app sref dref dtype cutoff pre post st :
  F64.greedy_loop sref dref dtype cutoff (pre ++ post) st
  = F64.greedy_loop sref dref dtype cutoff post
      (F64.greedy_loop sref dref dtype cutoff pre st).
Proof. unfold F64.greedy_loop. by rewrite fold_left_app. Qed.

Lemma f64_greedy_allocate_snoc sref dref dtype cutoff od row h :
  F64.greedy_allocate (od ++ [row]) sref dref dtype cutoff h
  = F64.loop_body sref dref dtype cutoff
      (F64.greedy_allocate od sref dref dtype cutoff h) row.
Proof. apply f64_greedy_loop_snoc. Qed.

(** The loop started in any state leaves the heap, appends the records and
    adds the costs of the pass that starts in that state's heap. *)
Lemma f64_greedy_loop_from sref dref dtype cutoff od st :
  let run := F64.greedy_allocate od sref dref dtype cutoff (F64.st_heap st) in
  let loop := F64.greedy_loop sref dref dtype cutoff od st in
  F64.st_heap loop = F64.st_heap run
  ∧ F64.allocations loop = F64.allocations st ++ F64.allocations run
  ∧ F64.total_weighted_cost loop
    = fold_left PrimFloat.add (F64.Alloc.weighted_cost <$> F64.allocations run)
        (F64.total_weighted_cost st).
Proof.
  cbv zeta. induction od as [|row od IH] using rev_ind.
  - simpl. by rewrite app_nil_r.
  - rewrite f64_greedy_allocate_snoc, f64_greedy_loop_snoc.
    destruct IH as (IHh & IHa & IHt).
    destruct (decide (F64.allocates sref dref cutoff
      (F64.st_heap (F64.greedy_loop sref dref dtype cutoff od st)) row)) as [Ha|Hn].
    + rewrite (f64_loop_body_allocates _ _ _ _ _ _ Ha).
      rewrite IHh in Ha. rewrite (f64_loop_body_allocates _ _ _ _ _ _ Ha).
      cbn [F64.st_heap F64.allocations F64.total_weighted_cost].
      rewrite IHh, IHa, IHt, fmap_app, fold_left_app, app_assoc. done.
    + rewrite (f64_loop_body_skip _ _ _ _ _ _ Hn).
      rewrite IHh in Hn. rewrite (f64_loop_body_skip _ _ _ _ _ _ Hn). done.
Qed.

(** Every record of a pass is emitted at a row of the table, in the heap
    the rows before it left. *)
Lemma f64_allocations_trace sref dref dtype cutoff od h rec :
  rec ∈ F64.allocations (F64.greedy_allocate od sref dref dtype cutoff h) →
  ∃ pre row post,
    od = pre ++ row :: post
    ∧ let st := F64.greedy_allocate pre sref dref dtype cutoff h in
      F64.allocates sref dref cutoff (F64.st_heap st) row
      ∧ rec = F64.emitted sref dref dtype (F64.st_heap st) row
      ∧ F64.allocations (F64.greedy_allocate (pre ++ [row]) sref dref dtype cutoff h)
        = F64.allocations st ++ [rec].
Proof.
  induction od as [|row od IH] using rev_ind; [by intros ?%elem_of_nil|].
  rewrite f64_greedy_allocate_snoc.
  destruct (decide (F64.allocates sref dref cutoff
    (F64.st_heap (F64.greedy_allocate od sref dref dtype cutoff h)) row)) as [Ha|Hn].
  - rewrite (f64_loop_body_allocates _ _ _ _ _ _ Ha). simpl.
    intros [Hin | ->%list_elem_of_singleton]%elem_of_app.
    + destruct (IH Hin) as (pre & row' & post & -> & Hrest).
      exists pre, row', (post ++ [row]). by rewrite <- app_assoc.
    + exists od, row, []. split; [done|]. cbv zeta.
      rewrite f64_greedy_allocate_snoc, (f64_loop_body_allocates _ _ _ _ _ _ Ha).
      done.
  - rewrite (f64_loop_body_skip _ _ _ _ _ _ Hn). intros Hin.
    destruct (IH Hin) as (pre & row' & post & -> & Hrest).
    exists pre, row', (post ++ [row]). by rewrite <- app_assoc.
Qed.

(** A pass writes no entry that is [<= 0], makes no entry negative, and
    writes to its two dicts only. *)
Lemma f64_pass_untouched sref dref dtype cutoff od h r k :
  (F64.get (h r) k 0 <=? 0) = true →
  F64.st_heap (F64.greedy_allocate od sref dref dtype cutoff h) r !! k = h r !! k.
Proof.
  intros Hle. induction od as [|row od IH] using rev_ind; [done|].
  rewrite f64_greedy_allocate_snoc.
  destruct (decide (F64.allocates sref dref cutoff
    (F64.st_heap (F64.greedy_allocate od sref dref dtype cutoff h)) row)) as [Ha|Hn].
  - rewrite (f64_loop_body_allocates _ _ _ _ _ _ Ha). simpl.
    rewrite (f64_decremented_untouched _ _ _ _ _ _ _ Ha); [done|].
    by rewrite (f64_get_lookup _ _ _ _ IH).
  - by rewrite (f64_loop_body_skip _ _ _ _ _ _ Hn).
Qed.

Lemma f64_pass_not_negative sref dref dtype cutoff od h r k :
  (F64.get (h r) k 0 <? 0) = false →
  (F64.get (F64.st_heap (F64.greedy_allocate od sref dref dtype cutoff h) r) k 0 <? 0)
  = false.
Proof.
  intros Hk. induction od as [|row od IH] using rev_ind; [done|].
  rewrite f64_greedy_allocate_snoc.
  destruct (decide (F64.allocates sref dref cutoff
    (F64.st_heap (F64.greedy_allocate od sref dref dtype cutoff h)) row)) as [Ha|Hn].
  - rewrite (f64_loop_body_allocates _ _ _ _ _ _ Ha). simpl.
    by apply (f64_decremented_not_negative _ _ _ _ _ _ _ Ha).
  - by rewrite (f64_loop_body_skip _ _ _ _ _ _ Hn).
Qed.

Lemma f64_pass_frame sref dref dtype cutoff od h r :
  r ≠ sref → r ≠ dref →
  F64.st_heap (F64.greedy_allocate od sref dref dtype cutoff h) r = h r.
Proof.
  intros Hs Hd. induction od as [|row od IH] using rev_ind; [done|].
  rewrite f64_greedy_allocate_snoc.
  destruct (decide (F64.allocates sref dref cutoff
    (F64.st_heap (F64.greedy_allocate od sref dref dtype cutoff h)) row)) as [Ha|Hn].
  - rewrite (f64_loop_body_allocates _ _ _ _ _ _ Ha). simpl.
    by rewrite f64_decremented_frame.
  - by rewrite (f64_loop_body_skip _ _ _ _ _ _ Hn).
Qed.


(** ** What a pass subtracts, on binary64 *)







(** ** What a pass leaves, on binary64 *)

(** When every record of a pass moves a finite volume, the pass leaves each
    row within the cutoff with an origin or a destination entry that is
    [<= 0]. *)
Lemma f64_pass_saturated sref dref dtype cutoff od h row :
  let run := F64.greedy_allocate od sref dref dtype cutoff h in
  (∀ rec, rec ∈ F64.allocations run →
     is_finite (F64.Alloc.allocated_volume rec) = true) →
  row ∈ od →
  F64.beyond_cutoff cutoff (F64.OD.distance_km row) = false →
  (F64.get (F64.st_heap run sref) (F64.OD.origin_id row) 0 <=? 0) = true
  ∨ (F64.get (F64.st_heap run dref) (F64.OD.destination_id row) 0 <=? 0) = true.
Proof.
  cbv zeta. induction od as [|row' od IH] using rev_ind;
    [by intros _ ?%elem_of_nil|].
  rewrite f64_greedy_allocate_snoc. intros Hfin Hin Hc.
  destruct (decide (F64.allocates sref dref cutoff
    (F64.st_heap (F64.greedy_allocate od sref dref dtype cutoff h)) row')) as [Ha|Hn].
  - rewrite (f64_loop_body_allocates _ _ _ _ _ _ Ha) in *.
    cbn [F64.st_heap F64.allocations] in *.
    apply elem_of_app in Hin as [Hin | ->%list_elem_of_singleton].
    + destruct IH as [Hs|Hd]; [|done|done| |].
      * intros rec Hrec. apply Hfin, elem_of_app. by left.
      * left. erewrite f64_get_lookup; [exact Hs|].
        by apply (f64_decremented_untouched _ _ _ _ _ _ _ Ha).
      * right. erewrite f64_get_lookup; [exact Hd|].
        by apply (f64_decremented_untouched _ _ _ _ _ _ _ Ha).
    + destruct (f64_decremented_zero _ _ _ _ _ Ha) as [Hz|Hz].
      * apply (Hfin (F64.emitted sref dref dtype _ row')), elem_of_app.
        right. by left.
      * left. by rewrite Hz.
      * right. by rewrite Hz.
  - rewrite (f64_loop_body_skip _ _ _ _ _ _ Hn) in *.
    apply elem_of_app in Hin as [Hin | ->%list_elem_of_singleton]; [by apply IH|].
    unfold F64.allocates, F64.s_left, F64.d_left in Hn.
    destruct (F64.get _ (F64.OD.origin_id row') 0 <=? 0); [by left|].
    destruct (F64.get _ (F64.OD.destination_id row') 0 <=? 0); [by right|].
    by destruct Hn.
Qed.

(** A loop none of whose rows allocates in the heap it starts in changes
    nothing. *)
Lemma f64_greedy_loop_idle sref dref dtype cutoff od st :
  (∀ row, row ∈ od → ¬ F64.allocates sref dref cutoff (F64.st_heap st) row) →
  F64.greedy_loop sref dref dtype cutoff od st = st.
Proof.
  induction od as [|row od IH]; [done|]. intros Hidle.
  unfold F64.greedy_loop. simpl.
  rewrite f64_loop_body_skip by (apply Hidle; left).
  apply IH. intros row' Hin. apply Hidle. by right.
Qed.

(** After a pass whose records all move a finite volume, no row
    allocates. *)
Lemma f64_pass_leaves_idle sref dref dtype cutoff od h row :
  let run := F64.greedy_allocate od sref dref dtype cutoff h in
  (∀ rec, rec ∈ F64.allocations run →
     is_finite (F64.Alloc.allocated_volume rec) = true) →
  row ∈ od →
  ¬ F64.allocates sref dref cutoff (F64.st_heap run) row.
Proof.
  cbv zeta. intros Hfin Hin (Hc & Hs & Hd).
  destruct (f64_pass_saturated sref dref dtype cutoff od h row Hfin Hin Hc)
    as [H|H]; unfold F64.s_left, F64.d_left in *; congruence.
Qed.

(** No record of a pass joins an origin and a destination one of whose
    entries was [<= 0] when the pass began. *)
Lemma f64_no_record_between sref dref dtype cutoff od h o d rec :
  (F64.get (h sref) o 0 <=? 0) = true ∨ (F64.get (h dref) d 0 <=? 0) = true →
  rec ∈ F64.allocations (F64.greedy_allocate od sref dref dtype cutoff h) →
  ¬ (F64.Alloc.origin_id rec = o ∧ F64.Alloc.destination_id rec = d).
Proof.
  intros Hle Hin [Ho Hd].
  apply f64_allocations_trace in Hin.
  destruct Hin as (pre & row & post & _ & (_ & Hs & Hd') & -> & _).
  cbn [F64.emitted F64.Alloc.origin_id F64.Alloc.destination_id] in *.
  unfold F64.s_left, F64.d_left in *. subst o d.
  destruct Hle as [Hle|Hle].
  - rewrite (f64_get_lookup _ (h sref)) in Hs; [congruence|].
    by apply f64_pass_untouched.
  - rewrite (f64_get_lookup _ (h dref)) in Hd'; [congruence|].
    by apply f64_pass_untouched.
Qed.

(** ** The records of a pass, on binary64 *)




(** C10, refuted on binary64.  With an infinite supply at A and an
    infinite demand at B, the iteration on the first listing of A to B
    appends a record and leaves NaN, not 0, on both sides; the second
    listing of the pair then appends another record with the same origin
    and the same destination. *)
Lemma binary64_infinite_pair_not_exhausted :
  F64.allocations
    (F64.greedy_allocate ([] ++ [F64.OD.Row "A" "B" 1]) supply ind "industrial" None
       F64.inf_heap)
  = F64.allocations (F64.greedy_allocate [] supply ind "industrial" None F64.inf_heap)
    ++ [F64.inf_record]
  ∧ F64.get (F64.st_heap (F64.greedy_allocate ([] ++ [F64.OD.Row "A" "B" 1]) supply ind
                            "industrial" None F64.inf_heap) supply) "A" 0 ≠ 0
  ∧ F64.get (F64.st_heap (F64.greedy_allocate ([] ++ [F64.OD.Row "A" "B" 1]) supply ind
                            "industrial" None F64.inf_heap) ind) "B" 0 ≠ 0
  ∧ F64.allocations
      (F64.greedy_allocate ([] ++ F64.OD.Row "A" "B" 1 :: [F64.OD.Row "A" "B" 1])
         supply ind "industrial" None F64.inf_heap)
    = F64.allocations (F64.greedy_allocate [] supply ind "industrial" None F64.inf_heap)
      ++ [F64.inf_record] ++ [F64.nan_record]
  ∧ F64.Alloc.origin_id F64.nan_record = "A"
  ∧ F64.Alloc.destination_id F64.nan_record = "B".
Proof.
  split; [vm_compute; done|].
  split; [vm_compute; apply nan_not_zero|].
  split; [vm_compute; apply nan_not_zero|].
  vm_compute. done.
Qed.

(** C10, amended.  When the iteration on [row] appends a record whose
    volume is finite, then right after it the supply left at the row's
    origin or the demand left at the row's destination is exactly 0.0, and
    no record the pass appends afterwards has both that origin and that
    destination. *)
Theorem binary64_allocation_exhausts_one_side
    pre row post supply_map demand_map demand_type cutoff_km h rec :
  let st := F64.greedy_allocate pre supply_map demand_map demand_type cutoff_km h in
  let st' := F64.greedy_allocate (pre ++ [row]) supply_map demand_map demand_type
               cutoff_km h in
  F64.allocations st' = F64.allocations st ++ [rec] →
  is_finite (F64.Alloc.allocated_volume rec) = true →
  (F64.get (F64.st_heap st' supply_map) (F64.OD.origin_id row) 0 = 0
   ∨ F64.get (F64.st_heap st' demand_map) (F64.OD.destination_id row) 0 = 0)
  ∧ ∃ later,
      F64.allocations
        (F64.greedy_allocate (pre ++ row :: post) supply_map demand_map demand_type
           cutoff_km h) = F64.allocations st ++ [rec] ++ later
      ∧ ∀ rec', rec' ∈ later →
          ¬ (F64.Alloc.origin_id rec' = F64.OD.origin_id row
             ∧ F64.Alloc.destination_id rec' = F64.OD.destination_id row).
Proof.
  cbv zeta. rewrite f64_greedy_allocate_snoc. intros Hrec Hfin.
  destruct (decide (F64.allocates supply_map demand_map cutoff_km
    (F64.st_heap (F64.greedy_allocate pre supply_map demand_map demand_type
                    cutoff_km h)) row)) as [Ha|Hn].
  2:{ rewrite (f64_loop_body_skip _ _ _ _ _ _ Hn) in Hrec.
      apply (f_equal length) in Hrec. rewrite length_app in Hrec.
      simpl in Hrec. lia. }
  rewrite (f64_loop_body_allocates _ _ _ _ _ _ Ha) in *.
  cbn [F64.st_heap F64.allocations] in *.
  apply app_inj_tail in Hrec as [_ <-].
  cbn [F64.emitted F64.Alloc.allocated_volume] in Hfin.
  pose proof (f64_decremented_zero _ _ _ _ _ Ha Hfin) as Hzero.
  split; [exact Hzero|].
  set (st' := F64.loop_body supply_map demand_map demand_type cutoff_km
                (F64.greedy_allocate pre supply_map demand_map demand_type
                   cutoff_km h) row).
  exists (F64.allocations
    (F64.greedy_allocate post supply_map demand_map demand_type cutoff_km
       (F64.st_heap st'))).
  split.
  - replace (pre ++ row :: post) with ((pre ++ [row]) ++ post)
      by (by rewrite <- app_assoc).
    unfold F64.greedy_allocate at 1.
    rewrite f64_greedy_loop_app.
    destruct (f64_greedy_loop_from supply_map demand_map demand_type cutoff_km post
      (F64.greedy_loop supply_map demand_map demand_type cutoff_km (pre ++ [row])
         (F64.untouched h))) as (Hh & Hallocs & _).
    rewrite Hallocs.
    change (F64.greedy_loop supply_map demand_map demand_type cutoff_km
              (pre ++ [row]) (F64.untouched h))
      with (F64.greedy_allocate (pre ++ [row]) supply_map demand_map demand_type
              cutoff_km h).
    rewrite f64_greedy_allocate_snoc. fold st'. unfold st' at 1.
    rewrite (f64_loop_body_allocates _ _ _ _ _ _ Ha).
    cbn [F64.allocations]. by rewrite <- app_assoc.
  - assert (F64.st_heap st'
            = F64.decremented supply_map demand_map
                (F64.st_heap (F64.greedy_allocate pre supply_map demand_map
                                demand_type cutoff_km h)) row) as Hst'.
    { unfold st'. by rewrite (f64_loop_body_allocates _ _ _ _ _ _ Ha). }
    rewrite Hst'. intros rec' Hin.
    eapply f64_no_record_between; [|exact Hin].
    destruct Hzero as [Hz|Hz]; [left|right]; by rewrite Hz.
Qed.

Lemma binary64_allocation_exhausts_one_side_witness :
  let st := F64.greedy_allocate [] supply ind "industrial" None F64.small_heap in
  let st' := F64.greedy_allocate ([] ++ [F64.OD.Row "A" "B" 5]) supply ind
               "industrial" None F64.small_heap in
  (F64.allocations st' = F64.allocations st ++ [F64.small_record]
   ∧ is_finite (F64.Alloc.allocated_volume F64.small_record) = true)
  ∧ (F64.get (F64.st_heap st' supply) "A" 0 = 0
     ∨ F64.get (F64.st_heap st' ind) "B" 0 = 0)
  ∧ ∃ later,
      F64.allocations
        (F64.greedy_allocate ([] ++ F64.OD.Row "A" "B" 5 :: [F64.OD.Row "A" "B" 5])
           supply ind "industrial" None F64.small_heap)
        = F64.allocations st ++ [F64.small_record] ++ later
      ∧ ∀ rec', rec' ∈ later →
          ¬ (F64.Alloc.origin_id rec' = "A" ∧ F64.Alloc.destination_id rec' = "B").
Proof.
  assert (F64.allocations
            (F64.greedy_allocate ([] ++ [F64.OD.Row "A" "B" 5]) supply ind
               "industrial" None F64.small_heap)
          = F64.allocations
              (F64.greedy_allocate [] supply ind "industrial" None F64.small_heap)
            ++ [F64.small_record]) as Hrec.
  { vm_compute. reflexivity. }
  assert (is_finite (F64.Alloc.allocated_volume F64.small_record) = true) as Hfin.
  { vm_compute. reflexivity. }
  split; [by split|].
  exact (binary64_allocation_exhausts_one_side [] (F64.OD.Row "A" "B" 5)
           [F64.OD.Row "A" "B" 5] supply ind "industrial" None F64.small_heap
           F64.small_record Hrec Hfin).
Defined.

(** ** Conservation, on binary64 *)




(** ** What a pass leaves behind, on binary64 *)

(** X1.  When a pass is over and each of its records moves a finite
    volume, no row of its table within the cutoff has both supply left at
    its origin and demand left at its destination: one of the two entries
    is [<= 0]; running the pass again on the dicts it left, under any
    label, allocates nothing and writes nothing. *)
Theorem binary64_pass_leaves_nothing_allocatable
    od supply_map demand_map demand_type cutoff_km h :
  let run := F64.greedy_allocate od supply_map demand_map demand_type cutoff_km h in
  (∀ rec, rec ∈ F64.allocations run →
     is_finite (F64.Alloc.allocated_volume rec) = true) →
  (∀ row, row ∈ od → F64.beyond_cutoff cutoff_km (F64.OD.distance_km row) = false →
     (F64.get (F64.st_heap run supply_map) (F64.OD.origin_id row) 0 <=? 0) = true
     ∨ (F64.get (F64.st_heap run demand_map) (F64.OD.destination_id row) 0 <=? 0)
       = true)
  ∧ ∀ demand_type',
      F64.greedy_allocate od supply_map demand_map demand_type' cutoff_km
        (F64.st_heap run)
      = F64.untouched (F64.st_heap run).
Proof.
  cbv zeta. intros Hfin. split.
  - intros row Hin Hc. by apply (f64_pass_saturated _ _ demand_type cutoff_km od h).
  - intros demand_type'. apply f64_greedy_loop_idle. intros row Hin.
    cbn [F64.untouched F64.st_heap].
    by apply (f64_pass_leaves_idle _ _ demand_type cutoff_km od h).
Qed.

Lemma binary64_pass_leaves_nothing_allocatable_witness :
  let run := F64.greedy_allocate F64.twice_table supply ind "industrial" None
               F64.small_heap in
  (∀ rec, rec ∈ F64.allocations run →
     is_finite (F64.Alloc.allocated_volume rec) = true)
  ∧ F64.greedy_allocate F64.twice_table supply ind "residential" None (F64.st_heap run)
    = F64.untouched (F64.st_heap run).
Proof.
  assert (∀ rec, rec ∈ F64.allocations
                         (F64.greedy_allocate F64.twice_table supply ind "industrial"
                            None F64.small_heap) →
            is_finite (F64.Alloc.allocated_volume rec) = true) as Hfin.
  { intros rec Hin. vm_compute in Hin.
    apply list_elem_of_singleton in Hin. by subst rec. }
  split; [exact Hfin|].
  destruct (binary64_pass_leaves_nothing_allocatable F64.twice_table supply ind
              "industrial" None F64.small_heap Hfin) as (_ & Hidle).
  exact (Hidle "residential").
Defined.

(** X19.  Whatever two dicts a pass is given, the same one twice
    included, it leaves an entry that is not negative not negative, and it
    never writes an entry that is [<= 0]. *)
Theorem binary64_pass_entry_bounds
    od supply_map demand_map demand_type cutoff_km h r k :
  let run := F64.greedy_allocate od supply_map demand_map demand_type cutoff_km h in
  ((F64.get (h r) k 0 <? 0) = false → (F64.get (F64.st_heap run r) k 0 <? 0) = false)
  ∧ ((F64.get (h r) k 0 <=? 0) = true → F64.st_heap run r !! k = h r !! k).
Proof.
  cbv zeta. split.
  - apply f64_pass_not_negative.
  - apply f64_pass_untouched.
Qed.

(** X20.  When the run is over and each line of the result table carries
    a finite volume, every row of the table within the cutoff has no
    supply left at its origin, or neither industrial nor residential demand
    left at its destination: nothing that could still be allocated is left
    behind. *)
Theorem binary64_run_leaves_nothing_allocatable od cutoff_km h row :
  let p := F64.run_passes od cutoff_km h in
  let final := F64.st_heap (F64.pass_res p) in
  (∀ rec, rec ∈ F64.alloc_df p → is_finite (F64.Alloc.allocated_volume rec) = true) →
  row ∈ od →
  F64.beyond_cutoff cutoff_km (F64.OD.distance_km row) = false →
  (F64.get (final supply) (F64.OD.origin_id row) 0 <=? 0) = true
  ∨ ((F64.get (final ind) (F64.OD.destination_id row) 0 <=? 0) = true
     ∧ (F64.get (final res) (F64.OD.destination_id row) 0 <=? 0) = true).
Proof.
  cbv zeta. unfold F64.alloc_df, F64.run_passes. cbn [F64.pass_ind F64.pass_res].
  intros Hfin Hin Hc.
  pose proof (f64_pass_saturated supply ind "industrial" cutoff_km od h row) as H1.
  cbv zeta in H1.
  set (p1 := F64.greedy_allocate od supply ind "industrial" cutoff_km h) in *.
  pose proof (f64_pass_saturated supply res "residential" cutoff_km od
                (F64.st_heap p1) row) as H2.
  pose proof (f64_pass_untouched supply res "residential" cutoff_km od
                (F64.st_heap p1) supply (F64.OD.origin_id row)) as Hkeep.
  pose proof (f64_pass_frame supply res "residential" cutoff_km od
                (F64.st_heap p1) ind) as Hframe.
  cbv zeta in H2.
  set (p2 := F64.greedy_allocate od supply res "residential" cutoff_km
               (F64.st_heap p1)) in *.
  destruct H1 as [Hs1|Hd1]; [|done|done| |].
  { intros rec Hrec. apply Hfin, elem_of_app. by left. }
  { left. by rewrite (f64_get_lookup _ _ _ _ (Hkeep Hs1)). }
  destruct H2 as [Hs2|Hd2]; [|done|done| |].
  { intros rec Hrec. apply Hfin, elem_of_app. by right. }
  { by left. }
  right. split; [|done]. by rewrite Hframe.
Qed.

Lemma binary64_run_leaves_nothing_allocatable_witness :
  let p := F64.run_passes F64.twice_table None F64.small_heap in
  let final := F64.st_heap (F64.pass_res p) in
  ((∀ rec, rec ∈ F64.alloc_df p → is_finite (F64.Alloc.allocated_volume rec) = true)
   ∧ F64.OD.Row "A" "B" 5 ∈ F64.twice_table
   ∧ F64.beyond_cutoff None 5 = false)
  ∧ ((F64.get (final supply) "A" 0 <=? 0) = true
     ∨ ((F64.get (final ind) "B" 0 <=? 0) = true
        ∧ (F64.get (final res) "B" 0 <=? 0) = true)).
Proof.
  assert (∀ rec, rec ∈ F64.alloc_df (F64.run_passes F64.twice_table None
                                       F64.small_heap) →
            is_finite (F64.Alloc.allocated_volume rec) = true) as Hfin.
  { intros rec Hin. vm_compute in Hin.
    repeat (apply elem_of_cons in Hin as [-> | Hin]; [vm_compute; reflexivity|]).
    by apply elem_of_nil in Hin. }
  assert (F64.OD.Row "A" "B" 5 ∈ F64.twice_table) as Hin.
  { unfold F64.twice_table. left. }
  assert (F64.beyond_cutoff None 5 = false) as Hc by reflexivity.
  split; [by repeat split|].
  exact (binary64_run_leaves_nothing_allocatable F64.twice_table None
           F64.small_heap (F64.OD.Row "A" "B" 5) Hfin Hin Hc).
Defined.

(** X21.  A pass over a table in two parts is the pass over the first
    part followed by the pass over the second part on the heap the first
    left: the lines are those of the first part followed by those of the
    second, and the total is the total of the first part with the weighted
    cost of each line of the second part added to it in binary64, one line
    after the other. *)
Theorem binary64_pass_over_two_parts
    pre post supply_map demand_map demand_type cutoff_km h :
  let whole := F64.greedy_allocate (pre ++ post) supply_map demand_map demand_type
                 cutoff_km h in
  let first := F64.greedy_allocate pre supply_map demand_map demand_type cutoff_km h in
  let second := F64.greedy_allocate post supply_map demand_map demand_type cutoff_km
                  (F64.st_heap first) in
  F64.st_heap whole = F64.st_heap second
  ∧ F64.allocations whole = F64.allocations first ++ F64.allocations second
  ∧ F64.total_weighted_cost whole
    = fold_left PrimFloat.add (F64.Alloc.weighted_cost <$> F64.allocations second)
        (F64.total_weighted_cost first).
Proof.
  cbv zeta.
  pose proof (f64_greedy_loop_from supply_map demand_map demand_type cutoff_km post
                (F64.greedy_allocate pre supply_map demand_map demand_type
                   cutoff_km h)) as Hfrom.
  cbv zeta in Hfrom.
  replace (F64.greedy_allocate (pre ++ post) supply_map demand_map demand_type
             cutoff_km h)
    with (F64.greedy_loop supply_map demand_map demand_type cutoff_km post
            (F64.greedy_allocate pre supply_map demand_map demand_type cutoff_km h)).
  - exact Hfrom.
  - unfold F64.greedy_allocate. by rewrite f64_greedy_loop_app.
Qed.

(** ** The order and the cost of the lines, on binary64 *)

Lemma strongly_sorted_sublist {A} (R : relation A) (l k : list A) :
  l `sublist_of` k → StronglySorted R k → StronglySorted R l.
Proof.
  induction 1 as [|x l k Hsub IH|x l k Hsub IH]; intros Hk; [done| |].
  - apply StronglySorted_inv in Hk as [Hk Hx]. constructor; [by apply IH|].
    apply Forall_forall. intros y Hy. rewrite Forall_forall in Hx.
    apply Hx. by eapply elem_of_sublist.
  - apply StronglySorted_inv in Hk as [Hk _]. by apply IH.
Qed.

(** The lines of a pass follow the rows of the table. *)
Lemma f64_pass_rows_sublist sref dref dtype cutoff od h :
  F64.row_of <$> F64.allocations (F64.greedy_allocate od sref dref dtype cutoff h)
  `sublist_of` od.
Proof.
  induction od as [|row od IH] using rev_ind; [done|].
  rewrite f64_greedy_allocate_snoc.
  destruct (decide (F64.allocates sref dref cutoff
    (F64.st_heap (F64.greedy_allocate od sref dref dtype cutoff h)) row)) as [Ha|Hn].
  - rewrite (f64_loop_body_allocates _ _ _ _ _ _ Ha). cbn [F64.allocations].
    rewrite fmap_app. apply sublist_app; [done|]. by destruct row.
  - rewrite (f64_loop_body_skip _ _ _ _ _ _ Hn). by apply sublist_inserts_r.
Qed.

Lemma f64_distance_of_row (recs : list F64.Alloc.record) :
  F64.Alloc.distance_km <$> recs = F64.OD.distance_km <$> (F64.row_of <$> recs).
Proof. rewrite <- list_fmap_compose. done. Qed.

(** X5.  The lines of each class stand for rows of the table and come in
    the order of the table, so that under any order in which the
    distances of the table are sorted, those of the lines of each class
    are sorted too; and the result table has at most two lines per row of
    the table. *)
Theorem binary64_run_lines_in_table_order od cutoff_km h :
  let p := F64.run_passes od cutoff_km h in
  F64.row_of <$> F64.allocations (F64.pass_ind p) `sublist_of` od
  ∧ F64.row_of <$> F64.allocations (F64.pass_res p) `sublist_of` od
  ∧ (length (F64.alloc_df p) ≤ 2 * length od)%nat
  ∧ ∀ R : relation float,
      StronglySorted R (F64.OD.distance_km <$> od) →
      StronglySorted R (F64.Alloc.distance_km <$> F64.allocations (F64.pass_ind p))
      ∧ StronglySorted R (F64.Alloc.distance_km <$> F64.allocations (F64.pass_res p)).
Proof.
  cbv zeta. unfold F64.alloc_df, F64.run_passes. cbn [F64.pass_ind F64.pass_res].
  pose proof (f64_pass_rows_sublist supply ind "industrial" cutoff_km od h) as H1.
  set (p1 := F64.greedy_allocate od supply ind "industrial" cutoff_km h) in *.
  pose proof (f64_pass_rows_sublist supply res "residential" cutoff_km od
                (F64.st_heap p1)) as H2.
  set (p2 := F64.greedy_allocate od supply res "residential" cutoff_km
               (F64.st_heap p1)) in *.
  split; [done|]. split; [done|]. split.
  - rewrite length_app.
    apply sublist_length in H1, H2. rewrite length_fmap in H1, H2. lia.
  - intros R HR. rewrite !f64_distance_of_row.
    split; (eapply strongly_sorted_sublist; [|exact HR]);
      by apply fmap_sublist.
Qed.

Lemma f64_pass_total_not_negative sref dref dtype cutoff od h :
  (∀ row, row ∈ od → (F64.OD.distance_km row <? 0) = false) →
  (F64.total_weighted_cost (F64.greedy_allocate od sref dref dtype cutoff h) <? 0)
  = false.
Proof.
  induction od as [|row od IH] using rev_ind; [done|]. intros Hdist.
  rewrite f64_greedy_allocate_snoc.
  assert ((F64.total_weighted_cost
             (F64.greedy_allocate od sref dref dtype cutoff h) <? 0) = false) as IH'.
  { apply IH. intros row' Hin. apply Hdist, elem_of_app. by left. }
  destruct (decide (F64.allocates sref dref cutoff
    (F64.st_heap (F64.greedy_allocate od sref dref dtype cutoff h)) row)) as [Ha|Hn].
  - rewrite (f64_loop_body_allocates _ _ _ _ _ _ Ha).
    cbn [F64.total_weighted_cost F64.emitted F64.Alloc.weighted_cost].
    apply add_not_negative; [done|]. apply mul_not_negative.
    + destruct Ha as (_ & Hs & Hd).
      by apply leb_false_ltb_false, f64_volume_not_le.
    + apply Hdist, elem_of_app. right. by left.
  - by rewrite (f64_loop_body_skip _ _ _ _ _ _ Hn).
Qed.

(** X10.  Over a table without negative distances the total weighted cost
    of a pass is not negative: it is [>= 0] unless it is NaN. *)
Theorem binary64_total_cost_not_negative
    od supply_map demand_map demand_type cutoff_km h :
  let total :=
    F64.total_weighted_cost
      (F64.greedy_allocate od supply_map demand_map demand_type cutoff_km h) in
  (∀ row, row ∈ od → (F64.OD.distance_km row <? 0) = false) →
  (total <? 0) = false ∧ (is_nan total = false → (0 <=? total) = true).
Proof.
  cbv zeta. intros Hdist.
  pose proof (f64_pass_total_not_negative supply_map demand_map demand_type
                cutoff_km od h Hdist) as Hnn.
  split; [done|]. by apply ltb_false_le.
Qed.

Lemma binary64_total_cost_not_negative_witness :
  let total :=
    F64.total_weighted_cost
      (F64.greedy_allocate F64.twice_table supply ind "industrial" None
         F64.small_heap) in
  (∀ row, row ∈ F64.twice_table → (F64.OD.distance_km row <? 0) = false)
  ∧ (total <? 0) = false ∧ (is_nan total = false → (0 <=? total) = true).
Proof.
  assert (∀ row, row ∈ F64.twice_table → (F64.OD.distance_km row <? 0) = false)
    as Hdist.
  { intros row Hin. unfold F64.twice_table in Hin.
    repeat (apply elem_of_cons in Hin as [-> | Hin]; [vm_compute; reflexivity|]).
    by apply elem_of_nil in Hin. }
  split; [exact Hdist|].
  exact (binary64_total_cost_not_negative F64.twice_table supply ind "industrial"
           None F64.small_heap Hdist).
Defined.

(** No record of a pass leaves an origin whose supply entry was [<= 0]
    when the pass began, and none reaches a destination whose demand
    entry was. *)
Lemma f64_no_record_from sref dref dtype cutoff od h x rec :
  (F64.get (h sref) x 0 <=? 0) = true →
  rec ∈ F64.allocations (F64.greedy_allocate od sref dref dtype cutoff h) →
  F64.Alloc.origin_id rec ≠ x.
Proof.
  intros Hle Hin Hx.
  by apply (f64_no_record_between sref dref dtype cutoff od h x
              (F64.Alloc.destination_id rec) rec (or_introl Hle) Hin).
Qed.

Lemma f64_no_record_to sref dref dtype cutoff od h x rec :
  (F64.get (h dref) x 0 <=? 0) = true →
  rec ∈ F64.allocations (F64.greedy_allocate od sref dref dtype cutoff h) →
  F64.Alloc.destination_id rec ≠ x.
Proof.
  intros Hle Hin Hx.
  by apply (f64_no_record_between sref dref dtype cutoff od h
              (F64.Alloc.origin_id rec) x rec (or_intror Hle) Hin).
Qed.

(** No record carries a volume that is [<= 0]. *)
Lemma f64_record_volume_not_le sref dref dtype cutoff od h rec :
  rec ∈ F64.allocations (F64.greedy_allocate od sref dref dtype cutoff h) →
  (F64.Alloc.allocated_volume rec <=? 0) = false.
Proof.
  intros Hin. apply f64_allocations_trace in Hin.
  destruct Hin as (pre & row & post & _ & (_ & Hs & Hd) & -> & _).
  by apply f64_volume_not_le.
Qed.

(** X12.  Over both passes a run takes nothing from a name whose seeded
    supply is [<= 0]; a class receives nothing at a name where its seeded
    demand is [<= 0]; and no line of the result table carries a volume
    that is [<= 0]. *)
Theorem binary64_nothing_moves_without_stock od cutoff_km h x :
  let p := F64.run_passes od cutoff_km h in
  ((F64.get (h supply) x 0 <=? 0) = true →
     F64.volumes_from x (F64.alloc_df p) = [])
  ∧ ((F64.get (h ind) x 0 <=? 0) = true →
     F64.volumes_to x (F64.allocations (F64.pass_ind p)) = [])
  ∧ ((F64.get (h res) x 0 <=? 0) = true →
     F64.volumes_to x (F64.allocations (F64.pass_res p)) = [])
  ∧ ∀ rec, rec ∈ F64.alloc_df p → (F64.Alloc.allocated_volume rec <=? 0) = false.
Proof.
  cbv zeta. unfold F64.alloc_df, F64.run_passes. cbn [F64.pass_ind F64.pass_res].
  pose proof (f64_pass_untouched supply ind "industrial" cutoff_km od h supply x)
    as Hkeep.
  pose proof (f64_pass_frame supply ind "industrial" cutoff_km od h res) as Hframe.
  pose proof (λ rec, f64_no_record_from supply ind "industrial" cutoff_km od h x rec)
    as Hfrom1.
  pose proof (λ rec, f64_no_record_to supply ind "industrial" cutoff_km od h x rec)
    as Hto1.
  pose proof (λ rec, f64_record_volume_not_le supply ind "industrial" cutoff_km od
                       h rec) as Hvol1.
  set (p1 := F64.greedy_allocate od supply ind "industrial" cutoff_km h) in *.
  pose proof (λ rec, f64_no_record_from supply res "residential" cutoff_km od
                       (F64.st_heap p1) x rec) as Hfrom2.
  pose proof (λ rec, f64_no_record_to supply res "residential" cutoff_km od
                       (F64.st_heap p1) x rec) as Hto2.
  pose proof (λ rec, f64_record_volume_not_le supply res "residential" cutoff_km od
                       (F64.st_heap p1) rec) as Hvol2.
  set (p2 := F64.greedy_allocate od supply res "residential" cutoff_km
               (F64.st_heap p1)) in *.
  split; [|split; [|split]].
  - intros Hle. unfold F64.volumes_from. rewrite filter_drop; [done|].
    intros rec [Hin|Hin]%elem_of_app.
    + by apply Hfrom1.
    + apply Hfrom2; [|done]. by rewrite (f64_get_lookup _ _ _ _ (Hkeep Hle)).
  - intros Hle. unfold F64.volumes_to. rewrite filter_drop; [done|].
    intros rec Hin. by apply Hto1.
  - intros Hle. unfold F64.volumes_to. rewrite filter_drop; [done|].
    intros rec Hin. apply Hto2; [|done]. by rewrite Hframe.
  - intros rec [Hin|Hin]%elem_of_app.
    + by apply (Hvol1 rec).
    + by apply (Hvol2 rec).
Qed.
